(** * spsyncpro-api: the credential and token core

    A shallow embedding of the three security-relevant components of the
    repository and the properties its specification states about them:

    - the password hasher  ([HashPassword], [ComparePassword],
      internal/account/service.go),
    - the token issuer and validator ([GenerateAuthToken],
      [ValidateAuthToken], [GeneratePasswordResetToken],
      [ValidatePasswordResetToken], same file),
    - the secret encryptor ([NewEncryptor], [Encrypt], [Decrypt],
      pkg/utils).

    The Go standard library and the third-party packages these functions call
    (strings, strconv, encoding/base64, crypto/hmac, golang.org/x/crypto/argon2,
    crypto/cipher, github.com/golang-jwt/jwt/v5) are modelled first, each in a
    module named after the package.  Text processing is executable; the
    cryptographic primitives themselves (Argon2id, HMAC, AES-GCM) are section
    variables, so every statement holds for whatever functions they are. *)

From Stdlib Require Import ZArith QArith Qround Lia List.
From Stdlib Require Import Strings.String Strings.Ascii Strings.Byte DecimalString.
From Stdlib Require SpecFloat.
From stdpp Require Import base option list gmap strings.

#[local] Open Scope string_scope.
#[local] Open Scope Z_scope.

(** ** Go values shared by all packages *)

#[global] Instance byte_eq_dec : EqDecision byte := Byte.byte_eq_dec.

(** [[]byte(s)] and [string(b)]: a Go string is its bytes. *)
Definition bytes_of (s : string) : list byte := list_byte_of_string s.
Definition string_of (b : list byte) : string := string_of_list_byte b.

(** The errors of strconv ([*NumError] wrapping ErrSyntax or ErrRange). *)
Inductive NumError := ErrSyntax | ErrRange.

(** What jwt's claim validator can find wrong with a claim set. *)
Inductive ClaimError :=
| ErrTokenExpired
| ErrTokenNotValidYet
| ErrInvalidType (key : string).

(** What [jwt.Parse] returns as its error. *)
Inductive JWTError :=
| ErrTokenMalformed
| ErrTokenUnverifiable
| ErrTokenSignatureInvalid
| ErrTokenInvalidClaims (why : list ClaimError).

(** Go's [error] values that the modelled functions return.  The first three
    are declared in pkg/domain, the next four in internal/account/service.go,
    the [EncryptorError]s are the [fmt.Errorf] messages of pkg/utils. *)
Inductive EncryptorError :=
| InvalidKeySize
| FailedToCreateCipher
| FailedToCreateGCM
| FailedToGenerateNonce
| FailedToDecodeBase64
| CiphertextTooShort
| FailedToDecryptOrAuthenticate.

Inductive error :=
| ErrPasswordEmpty
| ErrInvalidHashFormat
| ErrServerURLNotSet
| ErrFailedToGenerateSalt
| ErrJWTSecretNotSet
| ErrSubjectClaimNotFound
| ErrInvalidSubjectClaim
| ErrJWT (e : JWTError)
| ErrNum (e : NumError)
| ErrEncryptor (e : EncryptorError).

(** A call returns, panics, or ends the process.  A Go function of result
    type [(T, error)] returns a pair whose second component is [None] for
    [nil].  A panic unwinds the stack and can be recovered by a caller; a
    fatal error of the run time cannot, and the process exits. *)
Inductive outcome (A : Type) :=
| Returns (a : A)
| Panics (msg : string)
| Fatal (msg : string).
Arguments Returns {A} a.
Arguments Panics {A} msg.
Arguments Fatal {A} msg.

#[global] Instance outcome_bind : MBind outcome := fun A B f x =>
  match x with
  | Returns a => f a
  | Panics msg => Panics msg
  | Fatal msg => Fatal msg
  end.

(** [crypto/rand.Reader]: a read fills the whole buffer from the source, or
    fails.  The bytes drawn are an input of the model.  [Read] is
    [io.ReadFull(rand.Reader, b)], which returns the reader's error. *)
Inductive Reader :=
| Source (s : nat -> byte)
| Broken.

Definition Read (r : Reader) (n : nat) : option (list byte) :=
  match r with
  | Source s => Some (map s (seq 0 n))
  | Broken => None
  end.

(** [crypto/rand.Read(b)] returns no error (Go 1.24 and later, the
    toolchain of the repository's Dockerfile being 1.25): its second result
    is always [nil], and when the reader fails it ends the process with a
    fatal error, whose message goes on with the reader's error. *)
Definition rand_Read (r : Reader) (n : nat) : outcome (list byte * option string) :=
  match Read r n with
  | Some b => Returns (b, None)
  | None => Fatal "crypto/rand: failed to read random data (see https://go.dev/issue/66821): "
  end.

(** ** Package strings *)
Module strings.

(** [strings.Split(s, sep)] for a separator of one byte, which is what every
    call in the repository passes ("$", "," and ":").  The result is never
    empty: a string without the separator is returned whole. *)
Fixpoint Split (s : string) (sep : ascii) : list string :=
  match s with
  | EmptyString => [EmptyString]
  | String c rest =>
      if decide (c = sep) then EmptyString :: Split rest sep
      else match Split rest sep with
           | [] => [String c EmptyString]
           | field :: fields => String c field :: fields
           end
  end.

(** [strings.HasPrefix] and [strings.TrimPrefix]. *)
Definition HasPrefix (s pre : string) : bool := String.prefix pre s.

Definition TrimPrefix (s pre : string) : string :=
  if HasPrefix s pre then String.substring (String.length pre) (String.length s - String.length pre) s
  else s.

(** [strings.Join(fields, sep)]. *)
Fixpoint Join (fields : list string) (sep : ascii) : string :=
  match fields with
  | [] => EmptyString
  | [f] => f
  | f :: rest => f +:+ String sep (Join rest sep)
  end.

(** No byte of [s] is [c]. *)
Fixpoint free_of (c : ascii) (s : string) : bool :=
  match s with
  | EmptyString => true
  | String a rest => negb (bool_decide (a = c)) && free_of c rest
  end.

(** *** Facts about [Split] *)

Lemma Split_nonempty s sep : Split s sep <> [].
Proof.
  destruct s as [|c s]; simpl; [discriminate|].
  destruct (decide (c = sep)); [discriminate|].
  destruct (Split s sep); discriminate.
Qed.

Lemma Split_free s sep : free_of sep s = true -> Split s sep = [s].
Proof.
  induction s as [|c s IH]; simpl; [reflexivity|].
  intros [Hc Hs]%andb_prop. apply negb_true_iff, bool_decide_eq_false in Hc.
  destruct (decide (c = sep)); [contradiction|]. now rewrite IH.
Qed.

Lemma Split_app s1 s2 sep :
  free_of sep s1 = true -> Split (s1 +:+ String sep s2) sep = s1 :: Split s2 sep.
Proof.
  induction s1 as [|c s1 IH]; simpl.
  - intros _. destruct (decide (sep = sep)); [reflexivity | contradiction].
  - intros [Hc Hs]%andb_prop. apply negb_true_iff, bool_decide_eq_false in Hc.
    destruct (decide (c = sep)); [contradiction|]. now rewrite IH.
Qed.

Lemma free_of_app c s1 s2 :
  free_of c (s1 +:+ s2) = free_of c s1 && free_of c s2.
Proof.
  induction s1 as [|a s1 IH]; simpl; [reflexivity|].
  now rewrite IH, andb_assoc.
Qed.

End strings.

(** ** Package strconv *)
Module strconv.

Definition is_digit (c : ascii) : bool :=
  (48 <=? Z.of_nat (nat_of_ascii c)) && (Z.of_nat (nat_of_ascii c) <=? 57).

Definition digit_value (c : ascii) : Z := Z.of_nat (nat_of_ascii c) - 48.

(** The loop of [strconv.ParseUint] for base 10: [n] is the value read so
    far, a 64-bit unsigned integer; [maxVal] is [1<<bitSize - 1]. *)
Definition cutoff : Z := (2 ^ 64 - 1) / 10 + 1.

Fixpoint parse_loop (s : string) (n maxVal : Z) : Z * option NumError :=
  match s with
  | EmptyString => (n, None)
  | String c rest =>
      if negb (is_digit c) then (0, Some ErrSyntax)
      else if cutoff <=? n then (maxVal, Some ErrRange)
      else let n10 := n * 10 in
           let n1 := (n10 + digit_value c) mod 2 ^ 64 in
           if (n1 <? n10) || (maxVal <? n1) then (maxVal, Some ErrRange)
           else parse_loop rest n1 maxVal
  end.

(** [strconv.ParseUint(s, 10, bitSize)] for [bitSize] 32 or 64, the two calls
    the repository makes. *)
Definition ParseUint (s : string) (bitSize : Z) : Z * option NumError :=
  match s with
  | EmptyString => (0, Some ErrSyntax)
  | _ => parse_loop s 0 (2 ^ bitSize - 1)
  end.

(** [strconv.FormatUint(n, 10)], also what [fmt.Sprintf] prints for [%d]. *)
Definition FormatUint (n : Z) : string :=
  NilZero.string_of_uint (N.to_uint (Z.to_N n)).

(** *** [ParseUint] against the decimal notation

    [decimal s] is the number a non-empty string of decimal digits denotes,
    with no bound on its size. *)
Fixpoint digits_value (s : string) (acc : Z) : option Z :=
  match s with
  | EmptyString => Some acc
  | String c rest =>
      if is_digit c then digits_value rest (acc * 10 + digit_value c) else None
  end.

Definition decimal (s : string) : option Z :=
  match s with
  | EmptyString => None
  | _ => digits_value s 0
  end.

Lemma digit_value_range c : is_digit c = true -> 0 <= digit_value c <= 9.
Proof. unfold is_digit, digit_value. lia. Qed.

Lemma digits_value_ge s acc v : 0 <= acc -> digits_value s acc = Some v -> acc <= v.
Proof.
  revert acc. induction s as [|c s IH]; simpl; intros acc Hacc.
  - intros [= <-]. lia.
  - destruct (is_digit c) eqn:Hc; [|discriminate].
    pose proof (digit_value_range c Hc).
    intros Hv. apply IH in Hv; lia.
Qed.

Lemma parse_loop_spec s n maxVal v :
  0 <= n <= maxVal -> maxVal < 2 ^ 64 ->
  parse_loop s n maxVal = (v, None) <-> digits_value s n = Some v /\ v <= maxVal.
Proof.
  revert n. induction s as [|c s IH]; simpl; intros n Hn Hmax.
  - split; [intros [= <-] | intros [[= <-] _]]; auto. split; [reflexivity | lia].
  - destruct (is_digit c) eqn:Hc; simpl.
    2:{ split; [discriminate | intros [? _]; discriminate]. }
    pose proof (digit_value_range c Hc) as Hd.
    assert (Hcut : cutoff = 1844674407370955162) by reflexivity.
    assert (H64 : 2 ^ 64 = 18446744073709551616) by reflexivity.
    destruct (cutoff <=? n) eqn:Hcmp.
    { apply Z.leb_le in Hcmp. split; [discriminate|].
      intros [Hv Hle]. apply digits_value_ge in Hv; lia. }
    apply Z.leb_gt in Hcmp.
    destruct (Z_lt_ge_dec (n * 10 + digit_value c) (2 ^ 64)) as [Hfit | Hwrap].
    + rewrite (Z.mod_small (n * 10 + digit_value c)) by lia.
      replace (n * 10 + digit_value c <? n * 10) with false by (symmetry; apply Z.ltb_ge; lia).
      simpl. destruct (maxVal <? n * 10 + digit_value c) eqn:Hbig.
      * apply Z.ltb_lt in Hbig. split; [discriminate|].
        intros [Hv Hle]. apply digits_value_ge in Hv; lia.
      * apply Z.ltb_ge in Hbig. apply IH; lia.
    + assert (Hm : (n * 10 + digit_value c) mod 2 ^ 64 = n * 10 + digit_value c - 2 ^ 64).
      { symmetry. apply Z.mod_unique with (q := 1); lia. }
      rewrite Hm.
      replace (n * 10 + digit_value c - 2 ^ 64 <? n * 10) with true
        by (symmetry; apply Z.ltb_lt; lia).
      simpl. split; [discriminate|].
      intros [Hv Hle]. apply digits_value_ge in Hv; lia.
Qed.

(** [ParseUint] returns no error exactly on the decimal notations of the
    numbers below [2^bitSize], and then returns the number. *)
Lemma ParseUint_spec s bitSize v :
  0 < bitSize <= 64 ->
  ParseUint s bitSize = (v, None) <-> decimal s = Some v /\ v < 2 ^ bitSize.
Proof.
  intros Hbits.
  assert (Hpow : 0 < 2 ^ bitSize <= 2 ^ 64).
  { split; [apply Z.pow_pos_nonneg; lia | apply Z.pow_le_mono_r; lia]. }
  destruct s as [|c s]; [simpl; split; [discriminate | intros [? _]; discriminate]|].
  unfold ParseUint, decimal.
  rewrite parse_loop_spec by lia. intuition lia.
Qed.

(** It returns an error on every other string. *)
Lemma ParseUint_error s bitSize :
  0 < bitSize <= 64 ->
  (exists v e, ParseUint s bitSize = (v, Some e))
  <-> ~ exists v, decimal s = Some v /\ v < 2 ^ bitSize.
Proof.
  intros Hbits. destruct (ParseUint s bitSize) as [v [e|]] eqn:Hp.
  - split; [|eauto]. intros _ [v' Hv']. apply ParseUint_spec in Hv'; [congruence | assumption].
  - apply ParseUint_spec in Hp; [|assumption].
    split; [intros (v' & e & [=]) | intros []; eauto].
Qed.

End strconv.

Example Split_hash_fields :
  strings.Split "$argon2id$v=19$m=65536,t=1,p=4$c2FsdA$aGFzaA" "$"
  = [""; "argon2id"; "v=19"; "m=65536,t=1,p=4"; "c2FsdA"; "aGFzaA"].
Proof. reflexivity. Qed.

Example Split_empty : strings.Split "" "$" = [""].
Proof. reflexivity. Qed.

Example TrimPrefix_m : strings.TrimPrefix "m=65536" "m=" = "65536".
Proof. reflexivity. Qed.

Example TrimPrefix_absent : strings.TrimPrefix "65536" "m=" = "65536".
Proof. reflexivity. Qed.

Example ParseUint_ok : strconv.ParseUint "65536" 32 = (65536, None).
Proof. reflexivity. Qed.

Example ParseUint_range : strconv.ParseUint "4294967296" 32 = (4294967295, Some ErrRange).
Proof. reflexivity. Qed.

Example ParseUint_range64 :
  strconv.ParseUint "18446744073709551616" 64 = (18446744073709551615, Some ErrRange).
Proof. reflexivity. Qed.

Example ParseUint_max64 :
  strconv.ParseUint "18446744073709551615" 64 = (18446744073709551615, None).
Proof. reflexivity. Qed.

Example ParseUint_sign : strconv.ParseUint "+4" 32 = (0, Some ErrSyntax).
Proof. reflexivity. Qed.

Example FormatUint_memory : strconv.FormatUint 65536 = "65536".
Proof. reflexivity. Qed.


(** ** [FormatUint] against [ParseUint] *)
From Stdlib Require DecimalPos.

Module formatting.

(** The number a sequence of decimal digits stands for, after the digits
    [acc] already read. *)
Fixpoint uint_value (d : Decimal.uint) (acc : Z) : Z :=
  match d with
  | Decimal.Nil => acc
  | Decimal.D0 l => uint_value l (acc * 10 + 0)
  | Decimal.D1 l => uint_value l (acc * 10 + 1)
  | Decimal.D2 l => uint_value l (acc * 10 + 2)
  | Decimal.D3 l => uint_value l (acc * 10 + 3)
  | Decimal.D4 l => uint_value l (acc * 10 + 4)
  | Decimal.D5 l => uint_value l (acc * 10 + 5)
  | Decimal.D6 l => uint_value l (acc * 10 + 6)
  | Decimal.D7 l => uint_value l (acc * 10 + 7)
  | Decimal.D8 l => uint_value l (acc * 10 + 8)
  | Decimal.D9 l => uint_value l (acc * 10 + 9)
  end.

Lemma digits_value_string_of_uint d acc :
  strconv.digits_value (NilEmpty.string_of_uint d) acc = Some (uint_value d acc).
Proof.
  revert acc. induction d; intros acc; simpl; auto.
Qed.

Lemma of_uint_acc_value d p :
  Z.pos (Pos.of_uint_acc d p) = uint_value d (Z.pos p).
Proof.
  revert p. induction d; intros p; simpl; [reflexivity | rewrite IHd; f_equal; lia ..].
Qed.

Lemma of_uint_value d : Z.of_N (Pos.of_uint d) = uint_value d 0.
Proof.
  induction d; simpl; [reflexivity | exact IHd | apply of_uint_acc_value ..].
Qed.

Lemma string_of_uint_free_of d c :
  strconv.is_digit c = false -> strings.free_of c (NilEmpty.string_of_uint d) = true.
Proof.
  intros Hc. induction d; simpl; [reflexivity | rewrite IHd, andb_true_r ..];
    apply negb_true_iff, bool_decide_eq_false; intros <-; discriminate.
Qed.

Lemma to_uint_not_Nil p : Pos.to_uint p <> Decimal.Nil.
Proof.
  intros Hnil. pose proof (DecimalPos.Unsigned.of_to p) as Hp.
  rewrite Hnil in Hp. discriminate.
Qed.

Lemma FormatUint_pos p :
  strconv.FormatUint (Z.pos p) = NilEmpty.string_of_uint (Pos.to_uint p).
Proof.
  unfold strconv.FormatUint. simpl.
  pose proof (to_uint_not_Nil p). destruct (Pos.to_uint p); [contradiction | reflexivity ..].
Qed.

(** The text [FormatUint] prints is the decimal notation of the number. *)
Lemma decimal_FormatUint n : 0 <= n -> strconv.decimal (strconv.FormatUint n) = Some n.
Proof.
  intros Hn. destruct n as [|p|p]; [reflexivity | | lia].
  rewrite FormatUint_pos. unfold strconv.decimal.
  pose proof (to_uint_not_Nil p) as Hnil.
  pose proof (DecimalPos.Unsigned.of_to p) as Hp.
  pose proof (of_uint_value (Pos.to_uint p)) as Hvalue.
  rewrite Hp in Hvalue. simpl in Hvalue.
  pose proof (digits_value_string_of_uint (Pos.to_uint p) 0) as Hdigits.
  rewrite <- Hvalue in Hdigits.
  destruct (Pos.to_uint p); [contradiction | exact Hdigits ..].
Qed.

(** [ParseUint] reads back what [FormatUint] printed. *)
Lemma ParseUint_FormatUint n bitSize :
  0 < bitSize <= 64 -> 0 <= n < 2 ^ bitSize ->
  strconv.ParseUint (strconv.FormatUint n) bitSize = (n, None).
Proof.
  intros Hbits Hn. apply strconv.ParseUint_spec; [assumption|].
  split; [apply decimal_FormatUint; lia | lia].
Qed.

(** No character but a digit occurs in it. *)
Lemma FormatUint_free_of n c :
  strconv.is_digit c = false -> strings.free_of c (strconv.FormatUint n) = true.
Proof.
  intros Hc. destruct n as [|p|p].
  - simpl. rewrite andb_true_r. apply negb_true_iff, bool_decide_eq_false.
    intros <-. discriminate.
  - rewrite FormatUint_pos. now apply string_of_uint_free_of.
  - simpl. rewrite andb_true_r. apply negb_true_iff, bool_decide_eq_false.
    intros <-. discriminate.
Qed.

End formatting.

Example FormatUint_max : strconv.FormatUint (2 ^ 64 - 1) = "18446744073709551615".
Proof. reflexivity. Qed.

(** ** [Split] against [Join] and the decimal notation *)
Module splitting.

(** Joining the fields of a string gives the string back. *)
Lemma Join_Split s sep : strings.Join (strings.Split s sep) sep = s.
Proof.
  induction s as [|c s IH]; [reflexivity|]. simpl.
  pose proof (strings.Split_nonempty s sep) as Hne.
  destruct (decide (c = sep)) as [-> | Hc].
  - destruct (strings.Split s sep) as [|f fs]; [contradiction|].
    change (strings.Join (EmptyString :: f :: fs) sep)
      with (String sep (strings.Join (f :: fs) sep)).
    now rewrite IH.
  - destruct (strings.Split s sep) as [|f fs]; [contradiction|].
    rewrite <- IH. destruct fs; reflexivity.
Qed.

(** A decimal notation holds digits only. *)
Lemma digits_value_free_of s acc v c :
  strconv.is_digit c = false ->
  strconv.digits_value s acc = Some v -> strings.free_of c s = true.
Proof.
  intros Hc. revert acc. induction s as [|a s IH]; simpl; intros acc; [reflexivity|].
  destruct (strconv.is_digit a) eqn:Ha; [|discriminate].
  intros Hv. rewrite (IH _ Hv), andb_true_r.
  apply negb_true_iff, bool_decide_eq_false. intros ->. congruence.
Qed.

Lemma decimal_free_of s v c :
  strconv.is_digit c = false -> strconv.decimal s = Some v -> strings.free_of c s = true.
Proof.
  intros Hc. destruct s as [|a s]; [discriminate|].
  unfold strconv.decimal. now apply digits_value_free_of.
Qed.

End splitting.
(** ** Package encoding/base64 (RFC 4648) *)
Module base64.

(** Six bits, most significant first. *)
Definition sextet : Type := bool * bool * bool * bool * bool * bool.

Definition index (s : sextet) : nat :=
  let '(b5, b4, b3, b2, b1, b0) := s in
  (Nat.b2n b5 * 32 + Nat.b2n b4 * 16 + Nat.b2n b3 * 8
   + Nat.b2n b2 * 4 + Nat.b2n b1 * 2 + Nat.b2n b0)%nat.

Definition all_sextets : list sextet :=
  b5 ← [false; true]; b4 ← [false; true]; b3 ← [false; true];
  b2 ← [false; true]; b1 ← [false; true]; b0 ← [false; true];
  [(b5, b4, b3, b2, b1, b0)].

(** An [Encoding]: its alphabet and its padding character ([NoPadding] is
    [None]).  Both encodings the repository uses decode leniently (the
    [Strict] option is off). *)
Record Encoding := { encode : string; padChar : option ascii }.

Definition encodeStd : string :=
  "ABCDEFGHIJKLMNOPQRSTUVWXYZabcdefghijklmnopqrstuvwxyz0123456789+/".

Definition StdEncoding : Encoding := {| encode := encodeStd; padChar := Some "="%char |}.
Definition RawStdEncoding : Encoding := {| encode := encodeStd; padChar := None |}.

Definition encodeMap (enc : Encoding) (s : sextet) : ascii :=
  default "A"%char (String.get (index s) (encode enc)).

(** [enc.decodeMap[c]]: the sextet of an alphabet character, [None] for the
    library's 0xFF. *)
Definition decodeMap (enc : Encoding) (c : ascii) : option sextet :=
  find (fun s => bool_decide (encodeMap enc s = c)) all_sextets.

Definition is_pad (enc : Encoding) (c : ascii) : bool :=
  bool_decide (padChar enc = Some c).

Definition padding (enc : Encoding) (n : nat) : string :=
  match padChar enc with
  | Some p => string_of_list_ascii (replicate n p)
  | None => EmptyString
  end.

(** The 24 bits of three bytes as four sextets
    ([val>>18&0x3F], [val>>12&0x3F], [val>>6&0x3F], [val&0x3F]). *)
Definition quantum (x y z : byte) : sextet * sextet * sextet * sextet :=
  let '(x0, (x1, (x2, (x3, (x4, (x5, (x6, x7))))))) := Byte.to_bits x in
  let '(y0, (y1, (y2, (y3, (y4, (y5, (y6, y7))))))) := Byte.to_bits y in
  let '(z0, (z1, (z2, (z3, (z4, (z5, (z6, z7))))))) := Byte.to_bits z in
  ((x7, x6, x5, x4, x3, x2), (x1, x0, y7, y6, y5, y4),
   (y3, y2, y1, y0, z7, z6), (z5, z4, z3, z2, z1, z0)).

(** The three bytes of four sextets ([byte(val>>16)], [byte(val>>8)],
    [byte(val)]). *)
Definition byte0 (s0 s1 : sextet) : byte :=
  let '(a5, a4, a3, a2, a1, a0) := s0 in
  let '(b5, b4, _, _, _, _) := s1 in
  Byte.of_bits (b4, (b5, (a0, (a1, (a2, (a3, (a4, a5))))))).

Definition byte1 (s1 s2 : sextet) : byte :=
  let '(_, _, b3, b2, b1, b0) := s1 in
  let '(c5, c4, c3, c2, _, _) := s2 in
  Byte.of_bits (c2, (c3, (c4, (c5, (b0, (b1, (b2, b3))))))).

Definition byte2 (s2 s3 : sextet) : byte :=
  let '(_, _, _, _, c1, c0) := s2 in
  let '(d5, d4, d3, d2, d1, d0) := s3 in
  Byte.of_bits (d0, (d1, (d2, (d3, (d4, (d5, (c0, c1))))))).

(** [enc.EncodeToString(src)]. *)
Fixpoint EncodeToString (enc : Encoding) (src : list byte) : string :=
  match src with
  | [] => EmptyString
  | [x] =>
      let '(s0, s1, _, _) := quantum x x00 x00 in
      String (encodeMap enc s0) (String (encodeMap enc s1) (padding enc 2))
  | [x; y] =>
      let '(s0, s1, s2, _) := quantum x y x00 in
      String (encodeMap enc s0) (String (encodeMap enc s1)
        (String (encodeMap enc s2) (padding enc 1)))
  | x :: y :: z :: rest =>
      let '(s0, s1, s2, s3) := quantum x y z in
      String (encodeMap enc s0) (String (encodeMap enc s1)
        (String (encodeMap enc s2) (String (encodeMap enc s3)
          (EncodeToString enc rest))))
  end.

(** The decoder skips carriage returns and line feeds wherever they stand. *)
Definition is_newline (c : ascii) : bool :=
  bool_decide (c = "010"%char) || bool_decide (c = "013"%char).

Fixpoint strip_newlines (s : string) : string :=
  match s with
  | EmptyString => EmptyString
  | String c rest =>
      if is_newline c then strip_newlines rest else String c (strip_newlines rest)
  end.

(** The quanta of a text without newlines; [None] is [CorruptInputError].
    A final quantum of two or three characters is complete only without
    padding; with padding it ends in "==" or "=", and nothing follows.  The
    bits of the last character that belong to no byte are not looked at. *)
Fixpoint decode_quanta (enc : Encoding) (s : string) : option (list byte) :=
  match s with
  | EmptyString => Some []
  | String _ EmptyString => None
  | String c0 (String c1 rest) =>
      match decodeMap enc c0, decodeMap enc c1 with
      | Some s0, Some s1 =>
          match rest with
          | EmptyString =>
              if padChar enc is None then Some [byte0 s0 s1] else None
          | String c2 rest2 =>
              match decodeMap enc c2 with
              | Some s2 =>
                  match rest2 with
                  | EmptyString =>
                      if padChar enc is None then Some [byte0 s0 s1; byte1 s1 s2]
                      else None
                  | String c3 rest3 =>
                      match decodeMap enc c3 with
                      | Some s3 =>
                          tail ← decode_quanta enc rest3;
                          Some (byte0 s0 s1 :: byte1 s1 s2 :: byte2 s2 s3 :: tail)
                      | None =>
                          if is_pad enc c3 && bool_decide (rest3 = EmptyString)
                          then Some [byte0 s0 s1; byte1 s1 s2]
                          else None
                      end
                  end
              | None =>
                  match rest2 with
                  | String c3 EmptyString =>
                      if is_pad enc c2 && is_pad enc c3 then Some [byte0 s0 s1]
                      else None
                  | _ => None
                  end
              end
          end
      | _, _ => None
      end
  end.

(** [enc.DecodeString(s)]: the bytes, or [None] when the library returns an
    error (the callers drop whatever was decoded before it). *)
Definition DecodeString (enc : Encoding) (s : string) : option (list byte) :=
  decode_quanta enc (strip_newlines s).


(** *** Facts about the codec *)

Lemma list_ind3 {A} (P : list A -> Prop) :
  P [] -> (forall x, P [x]) -> (forall x y, P [x; y]) ->
  (forall x y z l, P l -> P (x :: y :: z :: l)) ->
  forall l, P l.
Proof.
  intros H0 H1 H2 H3.
  fix IH 1. intros [|x [|y [|z l]]].
  - exact H0.
  - apply H1.
  - apply H2.
  - apply H3, IH.
Qed.

Ltac sextet_cases s :=
  destruct s as [[[[[[] []] []] []] []] []].

Lemma decodeMap_encodeMap enc s :
  encode enc = encodeStd -> decodeMap enc (encodeMap enc s) = Some s.
Proof.
  destruct enc as [alphabet pad]; simpl; intros ->.
  sextet_cases s; reflexivity.
Qed.


(** An alphabet character is no newline, no padding and no separator of the
    password hash format. *)
Definition plain (c : ascii) : bool :=
  negb (is_newline c) && negb (bool_decide (c = "="%char))
  && negb (bool_decide (c = "$"%char)).

Lemma encodeMap_plain enc s : encode enc = encodeStd -> plain (encodeMap enc s) = true.
Proof.
  destruct enc as [alphabet pad]; simpl; intros ->.
  sextet_cases s; reflexivity.
Qed.

Lemma plain_not_newline c : plain c = true -> is_newline c = false.
Proof. unfold plain. destruct (is_newline c); simpl; [discriminate | reflexivity]. Qed.

Lemma plain_not_pad enc c :
  padChar enc = None \/ padChar enc = Some "="%char -> plain c = true -> is_pad enc c = false.
Proof.
  unfold plain, is_pad. intros [-> | ->] Hc.
  - apply bool_decide_eq_false. discriminate.
  - apply bool_decide_eq_false. intros [= <-].
    rewrite (bool_decide_eq_true_2 _ eq_refl) in Hc.
    rewrite andb_false_r in Hc. discriminate.
Qed.

Lemma byte0_quantum x y z :
  let '(s0, s1, _, _) := quantum x y z in byte0 s0 s1 = x.
Proof.
  unfold quantum.
  destruct (Byte.to_bits x) as (x0 & x1 & x2 & x3 & x4 & x5 & x6 & x7) eqn:Hx.
  destruct (Byte.to_bits y) as (y0 & y1 & y2 & y3 & y4 & y5 & y6 & y7).
  destruct (Byte.to_bits z) as (z0 & z1 & z2 & z3 & z4 & z5 & z6 & z7).
  unfold byte0. rewrite <- Hx. apply Byte.of_bits_to_bits.
Qed.

Lemma byte1_quantum x y z :
  let '(_, s1, s2, _) := quantum x y z in byte1 s1 s2 = y.
Proof.
  unfold quantum.
  destruct (Byte.to_bits x) as (x0 & x1 & x2 & x3 & x4 & x5 & x6 & x7).
  destruct (Byte.to_bits y) as (y0 & y1 & y2 & y3 & y4 & y5 & y6 & y7) eqn:Hy.
  destruct (Byte.to_bits z) as (z0 & z1 & z2 & z3 & z4 & z5 & z6 & z7).
  unfold byte1. rewrite <- Hy. apply Byte.of_bits_to_bits.
Qed.

Lemma byte2_quantum x y z :
  let '(_, _, s2, s3) := quantum x y z in byte2 s2 s3 = z.
Proof.
  unfold quantum.
  destruct (Byte.to_bits x) as (x0 & x1 & x2 & x3 & x4 & x5 & x6 & x7).
  destruct (Byte.to_bits y) as (y0 & y1 & y2 & y3 & y4 & y5 & y6 & y7).
  destruct (Byte.to_bits z) as (z0 & z1 & z2 & z3 & z4 & z5 & z6 & z7) eqn:Hz.
  unfold byte2. rewrite <- Hz. apply Byte.of_bits_to_bits.
Qed.


(** The two encodings of the repository: the standard alphabet, padded with
    "=" or not at all. *)
Definition standard (enc : Encoding) : Prop :=
  encode enc = encodeStd /\ (padChar enc = None \/ padChar enc = Some "="%char).

Lemma standard_Std : standard StdEncoding.
Proof. split; [reflexivity | right; reflexivity]. Qed.

Lemma standard_RawStd : standard RawStdEncoding.
Proof. split; [reflexivity | left; reflexivity]. Qed.

Lemma decodeMap_pad enc : encode enc = encodeStd -> decodeMap enc "="%char = None.
Proof. destruct enc as [alphabet pad]; simpl; intros ->. reflexivity. Qed.

#[local] Arguments encodeMap : simpl never.
#[local] Arguments decodeMap : simpl never.
#[local] Arguments byte0 : simpl never.
#[local] Arguments byte1 : simpl never.
#[local] Arguments byte2 : simpl never.
#[local] Arguments quantum : simpl never.

(** Decoding undoes encoding, for every byte sequence. *)
Lemma decode_quanta_EncodeToString enc src :
  standard enc -> decode_quanta enc (EncodeToString enc src) = Some src.
Proof.
  intros [Halpha Hpad].
  induction src as [|x|x y|x y z rest IH] using list_ind3.
  - reflexivity.
  - pose proof (byte0_quantum x x00 x00) as H0.
    simpl. destruct (quantum x x00 x00) as [[[s0 s1] s2] s3].
    simpl. rewrite !decodeMap_encodeMap by assumption.
    unfold padding, is_pad.
    destruct Hpad as [-> | ->]; simpl.
    + congruence.
    + rewrite decodeMap_pad by assumption. simpl. congruence.
  - pose proof (byte0_quantum x y x00) as H0.
    pose proof (byte1_quantum x y x00) as H1.
    simpl. destruct (quantum x y x00) as [[[s0 s1] s2] s3].
    simpl. rewrite !decodeMap_encodeMap by assumption.
    unfold padding, is_pad.
    destruct Hpad as [-> | ->]; simpl.
    + congruence.
    + rewrite decodeMap_pad by assumption. simpl. congruence.
  - pose proof (byte0_quantum x y z) as H0.
    pose proof (byte1_quantum x y z) as H1.
    pose proof (byte2_quantum x y z) as H2.
    simpl. destruct (quantum x y z) as [[[s0 s1] s2] s3].
    simpl. rewrite !decodeMap_encodeMap by assumption.
    rewrite IH. simpl. congruence.
Qed.

Fixpoint all_chars (p : ascii -> bool) (s : string) : bool :=
  match s with
  | EmptyString => true
  | String c rest => p c && all_chars p rest
  end.

Lemma strip_newlines_id s :
  all_chars (fun c => negb (is_newline c)) s = true -> strip_newlines s = s.
Proof.
  induction s as [|c s IH]; simpl; [reflexivity|].
  intros [Hc Hs]%andb_prop. apply negb_true_iff in Hc. rewrite Hc, IH; auto.
Qed.

Lemma all_chars_padding enc n p :
  standard enc -> p "="%char = true -> all_chars p (padding enc n) = true.
Proof.
  intros [_ Hpad] Hp. unfold padding.
  destruct Hpad as [-> | ->]; [reflexivity|].
  induction n as [|n IH]; simpl; [reflexivity|]. now rewrite Hp, IH.
Qed.

(** Every character of an encoding satisfies [p] when the 64 alphabet
    characters and "=" do. *)
Lemma all_chars_EncodeToString enc p src :
  standard enc -> (forall s, p (encodeMap enc s) = true) -> p "="%char = true ->
  all_chars p (EncodeToString enc src) = true.
Proof.
  intros Henc Hp Hpad.
  induction src as [|x|x y|x y z rest IH] using list_ind3; simpl.
  - reflexivity.
  - destruct (quantum x x00 x00) as [[[s0 s1] s2] s3]; simpl.
    rewrite !Hp, all_chars_padding; auto.
  - destruct (quantum x y x00) as [[[s0 s1] s2] s3]; simpl.
    rewrite !Hp, all_chars_padding; auto.
  - destruct (quantum x y z) as [[[s0 s1] s2] s3]; simpl.
    rewrite !Hp, IH; auto.
Qed.

(** Without padding, every character is one of the alphabet. *)
Lemma all_chars_EncodeToString_raw p src :
  (forall s, p (encodeMap RawStdEncoding s) = true) ->
  all_chars p (EncodeToString RawStdEncoding src) = true.
Proof.
  intros Hp.
  induction src as [|x|x y|x y z rest IH] using list_ind3; simpl.
  - reflexivity.
  - destruct (quantum x x00 x00) as [[[s0 s1] s2] s3]; simpl.
    now rewrite !Hp.
  - destruct (quantum x y x00) as [[[s0 s1] s2] s3]; simpl.
    now rewrite !Hp.
  - destruct (quantum x y z) as [[[s0 s1] s2] s3]; simpl.
    now rewrite !Hp, IH.
Qed.

(** [DecodeString(EncodeToString(src)) = src]. *)
Lemma DecodeString_EncodeToString enc src :
  standard enc -> DecodeString enc (EncodeToString enc src) = Some src.
Proof.
  intros Henc. unfold DecodeString.
  rewrite strip_newlines_id.
  - now apply decode_quanta_EncodeToString.
  - apply all_chars_EncodeToString; [assumption | | reflexivity].
    intros s. rewrite plain_not_newline; [reflexivity|].
    apply encodeMap_plain, Henc.
Qed.

Lemma EncodeToString_inj enc src src' :
  standard enc -> EncodeToString enc src = EncodeToString enc src' -> src = src'.
Proof.
  intros Henc Heq. apply (f_equal (DecodeString enc)) in Heq.
  rewrite !DecodeString_EncodeToString in Heq by assumption. congruence.
Qed.

(** An unpadded encoding contains no "$". *)
Lemma EncodeToString_raw_free_of_dollar src :
  strings.free_of "$"%char (EncodeToString RawStdEncoding src) = true.
Proof.
  assert (Hfree : forall s, strings.free_of "$"%char s
                  = all_chars (fun c => negb (bool_decide (c = "$"%char))) s).
  { induction s as [|c s IH]; simpl; [reflexivity | now rewrite IH]. }
  rewrite Hfree. apply all_chars_EncodeToString_raw.
  intros s. pose proof (encodeMap_plain RawStdEncoding s eq_refl) as Hs.
  unfold plain in Hs. apply andb_prop in Hs as [_ Hs]. exact Hs.
Qed.


(** *** The slack of a padded encoding

    When the input has two bytes more than a multiple of three, the last
    character before the "=" carries two bits that belong to no byte, and
    the encoder writes them as zeros.  [EncodeWithSlack] is the encoding
    with the lower of those two bits set. *)
Definition set_low_bit (s : sextet) : sextet :=
  let '(b5, b4, b3, b2, b1, _) := s in (b5, b4, b3, b2, b1, true).

Fixpoint EncodeWithSlack (enc : Encoding) (src : list byte) : string :=
  match src with
  | [x; y] =>
      let '(s0, s1, s2, _) := quantum x y x00 in
      String (encodeMap enc s0) (String (encodeMap enc s1)
        (String (encodeMap enc (set_low_bit s2)) (padding enc 1)))
  | x :: y :: z :: rest =>
      let '(s0, s1, s2, s3) := quantum x y z in
      String (encodeMap enc s0) (String (encodeMap enc s1)
        (String (encodeMap enc s2) (String (encodeMap enc s3)
          (EncodeWithSlack enc rest))))
  | _ => EncodeToString enc src
  end.

(** The number of positions at which two strings differ. *)
Fixpoint differences (s s' : string) : nat :=
  match s, s' with
  | String c rest, String c' rest' =>
      ((if decide (c = c') then 0 else 1) + differences rest rest')%nat
  | _, _ => 0%nat
  end.

Lemma differences_same s : differences s s = 0%nat.
Proof.
  induction s as [|c s IH]; simpl; [reflexivity|].
  now rewrite decide_True.
Qed.







End base64.

Example base64_Man : base64.EncodeToString base64.StdEncoding (bytes_of "Man") = "TWFu".
Proof. reflexivity. Qed.

Example base64_Ma : base64.EncodeToString base64.StdEncoding (bytes_of "Ma") = "TWE=".
Proof. reflexivity. Qed.

Example base64_M : base64.EncodeToString base64.StdEncoding (bytes_of "M") = "TQ==".
Proof. reflexivity. Qed.

Example base64_raw_M : base64.EncodeToString base64.RawStdEncoding (bytes_of "M") = "TQ".
Proof. reflexivity. Qed.

Example base64_foobar :
  base64.EncodeToString base64.StdEncoding (bytes_of "foobar") = "Zm9vYmFy".
Proof. reflexivity. Qed.

Example base64_decode_Ma : base64.DecodeString base64.StdEncoding "TWE=" = Some (bytes_of "Ma").
Proof. reflexivity. Qed.

Example base64_decode_lenient :
  base64.DecodeString base64.StdEncoding "TWF=" = Some (bytes_of "Ma").
Proof. reflexivity. Qed.

Example base64_decode_unpadded : base64.DecodeString base64.StdEncoding "TWE" = None.
Proof. reflexivity. Qed.

Example base64_raw_decode_padded : base64.DecodeString base64.RawStdEncoding "TWE=" = None.
Proof. reflexivity. Qed.

Example base64_slack :
  base64.EncodeToString base64.StdEncoding (bytes_of "Ma") = "TWE="
  /\ base64.EncodeWithSlack base64.StdEncoding (bytes_of "Ma") = "TWF=".
Proof. split; reflexivity. Qed.

Example base64_raw_decode : base64.DecodeString base64.RawStdEncoding "TWE" = Some (bytes_of "Ma").
Proof. reflexivity. Qed.

(** ** Packages crypto/hmac and golang.org/x/crypto/argon2 *)
Module hmac.

(** [hmac.Equal(a, b)]: equality of byte slices (computed in constant
    time, which the model does not observe). *)
Definition Equal (a b : list byte) : bool := bool_decide (a = b).

End hmac.

Module argon2.
Section IDKey.

(** The Argon2id function itself, on parameters the package accepts. *)
Variable argon2id : list byte -> list byte -> Z -> Z -> Z -> Z -> list byte.

(** [argon2.IDKey(password, salt, time, memory, threads, keyLen)]: the
    package panics on fewer than one pass or one lane, before it does
    anything else.  The working memory, [memory] KiB, is not modelled: the
    function is the package's on a machine that has it (where it cannot be
    allocated, the process ends). *)
Definition IDKey (password salt : list byte) (time memory threads keyLen : Z)
  : outcome (list byte) :=
  if time <? 1 then Panics "argon2: number of rounds too small"
  else if threads <? 1 then Panics "argon2: parallelism degree too low"
  else Returns (argon2id password salt time memory threads keyLen).

End IDKey.
End argon2.

(** Conversions to Go's unsigned integer types. *)
Definition uint8 (n : Z) : Z := n mod 2 ^ 8.
Definition uint32 (n : Z) : Z := n mod 2 ^ 32.


(** ** Counting byte strings

    There are [256 ^ n] byte strings of length [n], so a function from the
    strings of length [n + 1] to those of length [n] sends two of them to
    the same value.  A key-derivation function with a key of fixed length is
    such a function. *)
Module words.

Definition all_bytes : list byte :=
  omap Byte.of_nat (seq 0 256).

Fixpoint words (n : nat) : list (list byte) :=
  match n with
  | O => [[]]
  | S n => b ← all_bytes; cons b <$> words n
  end.

Lemma all_bytes_length : length all_bytes = 256%nat.
Proof. reflexivity. Qed.

Lemma all_bytes_complete b : b ∈ all_bytes.
Proof.
  unfold all_bytes. apply list_elem_of_omap. exists (Byte.to_nat b).
  split; [|apply Byte.of_to_nat].
  apply elem_of_seq. pose proof (Byte.to_nat_bounded b). lia.
Qed.

Lemma all_bytes_NoDup : NoDup all_bytes.
Proof. apply (bool_decide_unpack _). vm_compute. exact I. Qed.

Lemma words_S n : words (S n) = all_bytes ≫= (fun b => cons b <$> words n).
Proof. reflexivity. Qed.

Lemma words_complete l : l ∈ words (length l).
Proof.
  induction l as [|b l IH].
  - apply list_elem_of_singleton. reflexivity.
  - change (length (b :: l)) with (S (length l)). rewrite words_S.
    apply list_elem_of_bind. exists b. split; [|apply all_bytes_complete].
    apply list_elem_of_fmap. eauto.
Qed.

Lemma words_sound n l : l ∈ words n -> length l = n.
Proof.
  revert l. induction n as [|n IH]; intros l Hl.
  - apply list_elem_of_singleton in Hl. now subst.
  - rewrite words_S in Hl. apply list_elem_of_bind in Hl as (b & Hl & _).
    apply list_elem_of_fmap in Hl as (l' & -> & Hl'). simpl. f_equal. auto.
Qed.

Lemma words_NoDup n : NoDup (words n).
Proof.
  induction n as [|n IH].
  - apply NoDup_singleton.
  - rewrite words_S. apply NoDup_bind; [| |apply all_bytes_NoDup].
    + intros b1 b2 l _ _ H1 H2.
      apply list_elem_of_fmap in H1 as (l1 & -> & _).
      apply list_elem_of_fmap in H2 as (l2 & [= -> _] & _). reflexivity.
    + intros b _. apply NoDup_fmap_2; [|assumption].
      intros l1 l2 [=]. assumption.
Qed.

Lemma words_length n : length (words n) = (256 ^ n)%nat.
Proof.
  induction n as [|n IH]; [reflexivity|].
  rewrite words_S, Nat.pow_succ_r', <- IH, <- all_bytes_length.
  generalize all_bytes. intros bs.
  induction bs as [|b bs IHbs]; [reflexivity|].
  rewrite bind_cons, length_app, length_fmap, IHbs. simpl. lia.
Qed.

(** The pigeonhole: no function is injective from the byte strings of
    length [n + 1] into those of length [n]. *)
Lemma no_injection (f : list byte -> list byte) n :
  (forall l, length l = S n -> length (f l) = n) ->
  ~ (forall l1 l2, length l1 = S n -> length l2 = S n -> f l1 = f l2 -> l1 = l2).
Proof.
  intros Hlen Hinj.
  assert (Hsub : f <$> words (S n) ⊆+ words n).
  { apply NoDup_submseteq.
    - apply NoDup_fmap_2_strong; [|apply words_NoDup].
      intros l1 l2 H1%words_sound H2%words_sound. now apply Hinj.
    - intros k (l & -> & Hl%words_sound)%list_elem_of_fmap.
      pose proof (words_complete (f l)) as Hfl.
      now rewrite (Hlen l Hl) in Hfl. }
  apply submseteq_length in Hsub.
  rewrite length_fmap, !words_length in Hsub.
  pose proof (Nat.pow_lt_mono_r 256 n (S n)). lia.
Qed.

End words.

(** ** float64, as far as JSON numbers need it

    A finite float64 is the rational number it denotes; JSON carries no
    other.  [float64_of_int] is the conversion the JSON decoder performs on
    an integer literal: exact up to 53 significant bits, rounded to the
    nearest value of 53 bits beyond, ties to even. *)
Module float64.

Definition round53 (n : Z) : Z :=
  let bits := Z.log2 n + 1 in
  if bits <=? 53 then n
  else
    let shift := bits - 53 in
    let q := n / 2 ^ shift in
    let r := n mod 2 ^ shift in
    let half := 2 ^ (shift - 1) in
    let q' := if r <? half then q
              else if half <? r then q + 1
              else if Z.even q then q else q + 1 in
    q' * 2 ^ shift.

Definition float64_of_int (n : Z) : Q :=
  inject_Z (Z.sgn n * round53 (Z.abs n)).

(** The integer part, towards zero ([math.Modf], and Go's conversion of a
    float to an integer type). *)
Definition trunc (f : Q) : Z := Z.quot (Qnum f) (Z.pos (Qden f)).

Definition is_zero (f : Q) : bool := Qnum f =? 0.

Lemma round53_exact n : 0 <= n <= 2 ^ 53 -> round53 n = n.
Proof.
  intros Hn. unfold round53.
  destruct (Z.eq_dec n (2 ^ 53)) as [-> | Hlt]; [reflexivity|].
  destruct (Z.eq_dec n 0) as [-> | Hpos]; [reflexivity|].
  assert (Z.log2 n < 53) by (apply Z.log2_lt_pow2; lia).
  now rewrite (proj2 (Z.leb_le _ _)) by lia.
Qed.

Lemma trunc_inject_Z n : trunc (inject_Z n) = n.
Proof. unfold trunc, inject_Z. simpl. apply Z.quot_1_r. Qed.

Lemma float64_of_int_exact n : 0 <= n <= 2 ^ 53 -> float64_of_int n = inject_Z n.
Proof.
  intros Hn. unfold float64_of_int. f_equal.
  rewrite Z.abs_eq, round53_exact by lia.
  destruct (Z.eq_dec n 0) as [-> | Hpos]; [reflexivity|].
  rewrite Z.sgn_pos by lia. lia.
Qed.

Lemma trunc_float64_of_int n : 0 <= n <= 2 ^ 53 -> trunc (float64_of_int n) = n.
Proof. intros Hn. now rewrite float64_of_int_exact, trunc_inject_Z. Qed.

(** The integers a float64 holds exactly: those of at most 53 significant
    bits. *)
Definition exact (n : Z) : bool :=
  Z.abs n mod 2 ^ Z.max 0 (Z.log2 (Z.abs n) - 52) =? 0.

(** Rounding leaves exactly these integers as they are. *)
Lemma round53_fixed n : 0 <= n -> round53 n = n <-> exact n = true.
Proof.
  intros Hn. unfold exact, round53. rewrite Z.abs_eq by assumption.
  rewrite Z.eqb_eq.
  destruct (Z.leb_spec (Z.log2 n + 1) 53) as [Hbits | Hbits].
  - rewrite Z.max_l by lia. change (2 ^ 0) with 1. rewrite Z.mod_1_r. tauto.
  - rewrite Z.max_r by lia.
    replace (Z.log2 n + 1 - 53) with (Z.log2 n - 52) by lia.
    set (shift := Z.log2 n - 52).
    assert (Hpow : 0 < 2 ^ shift) by (apply Z.pow_pos_nonneg; lia).
    assert (Hhalf : 0 < 2 ^ (shift - 1)) by (apply Z.pow_pos_nonneg; lia).
    split.
    + intros Heq. rewrite <- Heq. apply Z.mod_mul. lia.
    + intros Hmod. cbv zeta. rewrite Hmod.
      rewrite (proj2 (Z.ltb_lt _ _)) by assumption.
      pose proof (Z.div_mod n (2 ^ shift) ltac:(lia)). lia.
Qed.

(** The rounding of an integer below [2^64 - 1024] is below [2^64]. *)
Lemma round53_range n : 0 <= n < 2 ^ 64 - 1024 -> 0 <= round53 n < 2 ^ 64.
Proof.
  intros Hn. unfold round53.
  destruct (Z.leb_spec (Z.log2 n + 1) 53) as [Hbits | Hbits]; [lia|].
  assert (Hpos : 0 < n).
  { destruct (Z.eq_dec n 0) as [-> | ?]; [simpl in Hbits|]; lia. }
  pose proof (Z.log2_spec n Hpos) as [Hlow Hhigh].
  assert (Hlog : Z.log2 n < 64) by (apply Z.log2_lt_pow2; lia).
  replace (Z.log2 n + 1 - 53) with (Z.log2 n - 52) by lia.
  replace (Z.succ (Z.log2 n)) with (Z.log2 n - 52 + 53) in Hhigh by lia.
  replace (Z.log2 n) with (Z.log2 n - 52 + 52) in Hlow at 1 by lia.
  set (shift := Z.log2 n - 52) in *.
  assert (Hshift : 1 <= shift <= 11) by lia.
  rewrite Z.pow_add_r in Hlow, Hhigh by lia.
  assert (Hpow : 0 < 2 ^ shift) by (apply Z.pow_pos_nonneg; lia).
  assert (Hhalf : 2 ^ shift = 2 * 2 ^ (shift - 1)).
  { rewrite <- Z.pow_succ_r by lia. f_equal. lia. }
  assert (Hmax : 2 ^ shift <= 2 ^ 11) by (apply Z.pow_le_mono_r; lia).
  change (2 ^ 52) with 4503599627370496 in *.
  change (2 ^ 53) with 9007199254740992 in *.
  change (2 ^ 64) with 18446744073709551616 in *.
  change (2 ^ 11) with 2048 in *.
  pose proof (Z.div_mod n (2 ^ shift) ltac:(lia)) as Hdiv.
  pose proof (Z.mod_pos_bound n (2 ^ shift) Hpow) as Hrem.
  set (q := n / 2 ^ shift) in *. set (r := n mod 2 ^ shift) in *.
  assert (Hq : 4503599627370496 <= q < 9007199254740992) by nia.
  cbv zeta.
  destruct (r <? 2 ^ (shift - 1)) eqn:Hlt; [nia|].
  apply Z.ltb_ge in Hlt.
  assert (Hnext : (q + 1) * 2 ^ shift < 18446744073709551616).
  { destruct (Z.eq_dec shift 11) as [Heq | Hne].
    - rewrite Heq in *. change (2 ^ 11) with 2048 in *.
      change (2 ^ (11 - 1)) with 1024 in *. nia.
    - assert (2 ^ shift <= 2 ^ 10) by (apply Z.pow_le_mono_r; lia).
      change (2 ^ 10) with 1024 in *. nia. }
  destruct (2 ^ (shift - 1) <? r); [nia|].
  destruct (Z.even q); nia.
Qed.

(** An integer above a rational is above its integer part. *)
Lemma trunc_le_of_lt f n : (f < inject_Z n)%Q -> trunc f <= n.
Proof.
  destruct f as [a b]. unfold Qlt, trunc, inject_Z. simpl. intros Hlt.
  rewrite Z.mul_1_r in Hlt.
  destruct (Z_lt_ge_dec a 0) as [Hneg | Hnonneg].
  - destruct (Z_lt_ge_dec n 0) as [Hn | Hn].
    + replace a with (- - a) by lia. rewrite Z.quot_opp_l by lia.
      rewrite Z.quot_div_nonneg by lia.
      assert (- n <= - a / Z.pos b); [|lia].
      apply Z.div_le_lower_bound; lia.
    + replace a with (- - a) by lia. rewrite Z.quot_opp_l by lia.
      rewrite Z.quot_div_nonneg by lia.
      assert (0 <= - a / Z.pos b); [|lia].
      apply Z.div_pos; lia.
  - rewrite Z.quot_div_nonneg by lia.
    assert (a / Z.pos b < n); [|lia].
    apply Z.div_lt_upper_bound; lia.
Qed.

(** The value of a float of the Standard Library's IEEE 754 model, to
    compare [float64_of_int] with binary64 rounding. *)
Definition value (f : SpecFloat.spec_float) : Q :=
  match f with
  | SpecFloat.S754_finite s m e =>
      inject_Z (if s then Z.neg m else Z.pos m) * Qpower 2 e
  | _ => 0
  end.

Definition binary64 (n : Z) : Q := value (SpecFloat.binary_normalize 53 1024 n 0 false).

End float64.

Example float64_of_int_is_binary64_rounding :
  forallb (fun n => Qeq_bool (float64.float64_of_int n) (float64.binary64 n))
    [0; 1; 123; 86400; 2 ^ 53 - 1; 2 ^ 53; 2 ^ 53 + 1; 2 ^ 53 + 2; 2 ^ 53 + 3;
     2 ^ 54 + 2; 2 ^ 54 + 6; 2 ^ 63; 2 ^ 64 - 1; 12345678901234567890;
     - (2 ^ 53 + 1)] = true.
Proof. vm_compute. reflexivity. Qed.

Example round53_above_2_53 : float64.round53 (2 ^ 53 + 1) = 2 ^ 53.
Proof. reflexivity. Qed.

Example round53_ties_to_even : float64.round53 (2 ^ 53 + 3) = 2 ^ 53 + 4.
Proof. reflexivity. Qed.

Example round53_max_uint64 : float64.round53 (2 ^ 64 - 1) = 2 ^ 64.
Proof. reflexivity. Qed.

(** ** Package github.com/golang-jwt/jwt/v5 *)
Module jwt.

(** A decoded JSON value, as encoding/json stores it in an [interface{}]:
    [nil], [bool], [float64], [string], and the two composite kinds. *)
Inductive Value :=
| JNull
| JBool (b : bool)
| JNumber (f : Q)
| JString (s : string)
| JArray
| JObject.

(** The Go values the repository puts into [jwt.MapClaims] before signing. *)
Inductive GoValue :=
| GoUint (n : Z)
| GoInt64 (n : Z)
| GoString (s : string).

(** What a claim is once the token has been serialised and parsed back:
    every JSON number becomes a float64.  (The issuer's strings are ASCII,
    which JSON carries unchanged.) *)
Definition decoded (v : GoValue) : Value :=
  match v with
  | GoUint n | GoInt64 n => JNumber (float64.float64_of_int n)
  | GoString s => JString s
  end.

(** The signing method named by the "alg" header. *)
Inductive SigningMethod :=
| HS256 | HS384 | HS512
| OtherMethod (alg : string)   (* registered, and not an HMAC: RS256, ES256, none, ... *)
| UnknownMethod.               (* no "alg", or none registered under the name *)

#[global] Instance SigningMethod_eq_dec : EqDecision SigningMethod.
Proof. solve_decision. Defined.

(** A token in compact serialisation, read as the parser reads it: the text
    of its first two segments (which is what is signed), the method its
    header names, its claims and its signature.  A string that is not three
    dot-separated base64url segments of the right JSON is [Malformed]. *)
Record Token := {
  SigningInput : string;
  Method : SigningMethod;
  Claims : gmap string Value;
  Signature : list byte;
}.

Inductive TokenString :=
| Malformed (text : string)
| Compact (t : Token).

(** A [NumericDate] is a time in nanoseconds since the Unix epoch, cut to
    the second ([TimePrecision]).  The library converts the seconds with
    [int64(...)] and hands them to [time.Unix], which keeps a time as an
    int64 of seconds counted from the year 1, [unixToInternal] seconds
    before the epoch.  The definition computes in [Z]: it is the library's
    date for the numbers whose seconds that count holds, [representable];
    beyond them the conversions overflow and the library's date lies
    elsewhere. *)
Definition newNumericDateFromSeconds (f : Q) : Z :=
  float64.trunc (f * 1000000000) / 1000000000 * 1000000000.

Definition unixToInternal : Z := 62135596800.

Definition representable (f : Q) : bool :=
  (- 2 ^ 63 <=? float64.trunc f) && (float64.trunc f <? 2 ^ 63 - unixToInternal).

Lemma newNumericDateFromSeconds_int n :
  newNumericDateFromSeconds (inject_Z n) = n * 1000000000.
Proof.
  unfold newNumericDateFromSeconds, float64.trunc. simpl.
  rewrite Z.quot_1_r, Z.div_mul by discriminate. reflexivity.
Qed.

(** The date read from a number is not after the number. *)
Lemma newNumericDateFromSeconds_le f now :
  (f * 1000000000 < inject_Z now)%Q -> newNumericDateFromSeconds f <= now.
Proof.
  intros Hlt%float64.trunc_le_of_lt. unfold newNumericDateFromSeconds.
  pose proof (Z.mul_div_le (float64.trunc (f * 1000000000)) 1000000000).
  lia.
Qed.

Inductive date :=
| NoDate
| Date (t : Z)
| BadDate (e : ClaimError).

(** [MapClaims.parseNumericDate]: an absent claim and a zero are both no
    date; anything but a number is an error. *)
Definition parseNumericDate (m : gmap string Value) (key : string) : date :=
  match m !! key with
  | None => NoDate
  | Some (JNumber f) =>
      if float64.is_zero f then NoDate else Date (newNumericDateFromSeconds f)
  | Some _ => BadDate (ErrInvalidType key)
  end.

(** The claim sets whose dates are [representable]: the numbers, if any,
    under "exp" and "nbf", the two dates the validator reads. *)
Definition date_representable (m : gmap string Value) (key : string) : bool :=
  match m !! key with
  | Some (JNumber f) => representable f
  | _ => true
  end.

Definition dates_representable (m : gmap string Value) : bool :=
  date_representable m "exp" && date_representable m "nbf".

(** [Validator.verifyExpiresAt] and [verifyNotBefore], neither claim being
    required; [now] is the time of the check, in nanoseconds. *)
Definition verifyExpiresAt (m : gmap string Value) (now : Z) : list ClaimError :=
  match parseNumericDate m "exp" with
  | BadDate e => [e]
  | NoDate => []
  | Date exp => if now <? exp then [] else [ErrTokenExpired]
  end.

Definition verifyNotBefore (m : gmap string Value) (now : Z) : list ClaimError :=
  match parseNumericDate m "nbf" with
  | BadDate e => [e]
  | NoDate => []
  | Date nbf => if now <? nbf then [ErrTokenNotValidYet] else []
  end.

(** [Validator.Validate] with the default options: issued-at is not
    checked, no audience, issuer or subject is expected. *)
Definition Validate (m : gmap string Value) (now : Z) : list ClaimError :=
  (verifyExpiresAt m now ++ verifyNotBefore m now)%list.

Section Signing.

(** The MAC of a signing input under a key, for each HMAC method, and the
    text of the first two segments of the token that a method and a claim
    set serialise to. *)
Variable HMAC : SigningMethod -> list byte -> string -> list byte.
Variable segments : SigningMethod -> gmap string GoValue -> string.

(** [method.Verify(signingInput, signature, key)] for a key of type
    [[]byte]: only the HMAC methods take one. *)
Definition Verify (method : SigningMethod) (text : string) (sig key : list byte) : bool :=
  match method with
  | HS256 | HS384 | HS512 => hmac.Equal sig (HMAC method key text)
  | OtherMethod _ | UnknownMethod => false
  end.

(** [jwt.Parse(tokenString, keyFunc)] where [keyFunc] returns [key] for
    every token, as both validators of the repository have it: structure,
    then signature, then claims. *)
Definition Parse (tokenString : TokenString) (key : list byte) (now : Z)
  : gmap string Value + JWTError :=
  match tokenString with
  | Malformed _ => inr ErrTokenMalformed
  | Compact t =>
      if bool_decide (Method t = UnknownMethod) then inr ErrTokenUnverifiable
      else if Verify (Method t) (SigningInput t) (Signature t) key then
        match Validate (Claims t) now with
        | [] => inl (Claims t)
        | errs => inr (ErrTokenInvalidClaims errs)
        end
      else inr ErrTokenSignatureInvalid
  end.

(** [jwt.NewWithClaims(method, claims).SignedString(key)] for an HMAC
    method and a key of type [[]byte]. *)
Definition SignedString (method : SigningMethod) (claims : gmap string GoValue)
    (key : list byte) : TokenString :=
  let text := segments method claims in
  Compact {| SigningInput := text;
             Method := method;
             Claims := decoded <$> claims;
             Signature := HMAC method key text |}.

Lemma Verify_own_signature method text key :
  method = HS256 \/ method = HS384 \/ method = HS512 ->
  Verify method text (HMAC method key text) key = true.
Proof.
  intros [-> | [-> | ->]]; apply bool_decide_eq_true_2; reflexivity.
Qed.

(** A token parses under the key that signed it exactly when its claims
    validate. *)
Lemma Parse_SignedString claims key now :
  Parse (SignedString HS256 claims key) key now =
    match Validate (decoded <$> claims) now with
    | [] => inl (decoded <$> claims)
    | errs => inr (ErrTokenInvalidClaims errs)
    end.
Proof.
  unfold Parse, SignedString. cbn [Method SigningInput Signature Claims].
  rewrite bool_decide_eq_false_2 by discriminate.
  rewrite Verify_own_signature by auto. reflexivity.
Qed.

End Signing.

End jwt.
(** ** Package account: the password hasher (internal/account/service.go) *)
Module account.

Section PasswordHasher.

Variable argon2id : list byte -> list byte -> Z -> Z -> Z -> Z -> list byte.

(** [HashPassword(ctx, password)].  [rand] is crypto/rand's reader; the
    tracing span has no part in the result.  The salt is drawn with
    [rand.Read]. *)
Definition HashPassword (rand : Reader) (password : string)
  : outcome (string * option error) :=
  if bool_decide (String.length password = 0%nat) then
    Returns ("", Some ErrPasswordEmpty)
  else
    let memory := 64 * 1024 in
    let time := 1 in
    let threads := 4 in
    let keyLen := 32 in
    let saltLen := 16%nat in
    '(salt, err) ← rand_Read rand saltLen;
    match err with
    | Some _ => Returns ("", Some ErrFailedToGenerateSalt)
    | None =>
        hash ← argon2.IDKey argon2id (bytes_of password) salt time memory threads keyLen;
        let b64Salt := base64.EncodeToString base64.RawStdEncoding salt in
        let b64Hash := base64.EncodeToString base64.RawStdEncoding hash in
        let encoded :=
          "$argon2id$v=19$m=" +:+ strconv.FormatUint memory
          +:+ ",t=" +:+ strconv.FormatUint time
          +:+ ",p=" +:+ strconv.FormatUint threads
          +:+ "$" +:+ b64Salt +:+ "$" +:+ b64Hash in
        Returns (encoded, None)
    end.

(** [ComparePassword(ctx, password, hash)]. *)
Definition ComparePassword (password hash : string) : outcome (bool * option error) :=
  let parts := strings.Split hash "$" in
  if bool_decide (length parts ≠ 6%nat) then Returns (false, Some ErrInvalidHashFormat)
  else if bool_decide (parts !!! 1%nat ≠ "argon2id") then
    Returns (false, Some ErrInvalidHashFormat)
  else
    let params := strings.Split (parts !!! 3%nat) "," in
    if bool_decide (length params ≠ 3%nat) then Returns (false, Some ErrInvalidHashFormat)
    else
      let memoryStr := strings.TrimPrefix (params !!! 0%nat) "m=" in
      match strconv.ParseUint memoryStr 32 with
      | (_, Some _) => Returns (false, Some ErrInvalidHashFormat)
      | (memory, None) =>
      let timeStr := strings.TrimPrefix (params !!! 1%nat) "t=" in
      match strconv.ParseUint timeStr 32 with
      | (_, Some _) => Returns (false, Some ErrInvalidHashFormat)
      | (time, None) =>
      let threadsStr := strings.TrimPrefix (params !!! 2%nat) "p=" in
      match strconv.ParseUint threadsStr 32 with
      | (_, Some _) => Returns (false, Some ErrInvalidHashFormat)
      | (threads, None) =>
      match base64.DecodeString base64.RawStdEncoding (parts !!! 4%nat) with
      | None => Returns (false, Some ErrInvalidHashFormat)
      | Some salt =>
      match base64.DecodeString base64.RawStdEncoding (parts !!! 5%nat) with
      | None => Returns (false, Some ErrInvalidHashFormat)
      | Some hashBytes =>
          let keyLen := uint32 32 in
          computedHash ← argon2.IDKey argon2id (bytes_of password) salt
                           (uint32 time) (uint32 memory) (uint8 threads) keyLen;
          Returns (hmac.Equal hashBytes computedHash, None)
      end end end end end.

(** *** The hasher's properties *)

#[local] Arguments base64.DecodeString : simpl never.
#[local] Arguments base64.EncodeToString : simpl never.
#[local] Arguments strconv.ParseUint : simpl never.
#[local] Arguments strings.TrimPrefix : simpl never.
#[local] Arguments argon2.IDKey : simpl never.

(** What [ComparePassword] computes once the hash has passed every check
    of its format: the key is derived with the parameters of the hash, the
    lane count narrowed to eight bits. *)
Lemma ComparePassword_fields password hash f0 f2 f3 f4 f5 m t p mv tv pv salt key :
  strings.Split hash "$" = [f0; "argon2id"; f2; f3; f4; f5] ->
  strings.Split f3 "," = [m; t; p] ->
  strconv.ParseUint (strings.TrimPrefix m "m=") 32 = (mv, None) ->
  strconv.ParseUint (strings.TrimPrefix t "t=") 32 = (tv, None) ->
  strconv.ParseUint (strings.TrimPrefix p "p=") 32 = (pv, None) ->
  base64.DecodeString base64.RawStdEncoding f4 = Some salt ->
  base64.DecodeString base64.RawStdEncoding f5 = Some key ->
  ComparePassword password hash =
    (computedHash ← argon2.IDKey argon2id (bytes_of password) salt
                      (uint32 tv) (uint32 mv) (uint8 pv) (uint32 32);
     Returns (hmac.Equal key computedHash, None)).
Proof.
  intros Hparts Hparams Hm Ht Hp Hsalt Hkey.
  unfold ComparePassword. rewrite Hparts. simpl.
  rewrite Hparams. simpl.
  rewrite Hm, Ht, Hp, Hsalt, Hkey. reflexivity.
Qed.

(** The fields of an encoded hash, as [ComparePassword] splits it. *)
Lemma Split_encoded b64Salt b64Hash :
  strings.free_of "$" b64Salt = true -> strings.free_of "$" b64Hash = true ->
  strings.Split ("$argon2id$v=19$m=65536,t=1,p=4$" +:+ b64Salt +:+ "$" +:+ b64Hash) "$"
  = [""; "argon2id"; "v=19"; "m=65536,t=1,p=4"; b64Salt; b64Hash].
Proof.
  intros Hsalt Hhash.
  change ("$argon2id$v=19$m=65536,t=1,p=4$" +:+ b64Salt +:+ "$" +:+ b64Hash)
    with ("" +:+ String "$" ("argon2id" +:+ String "$" ("v=19" +:+ String "$"
           ("m=65536,t=1,p=4" +:+ String "$" (b64Salt +:+ String "$" b64Hash))))).
  rewrite !strings.Split_app by (assumption || reflexivity).
  now rewrite strings.Split_free.
Qed.

(** [HashPassword] on a non-empty password and a working entropy source. *)
Lemma HashPassword_Source src password :
  password <> "" ->
  HashPassword (Source src) password =
    let salt := map src (seq 0 16) in
    let key := argon2id (bytes_of password) salt 1 65536 4 32 in
    Returns ("$argon2id$v=19$m=65536,t=1,p=4$"
             +:+ base64.EncodeToString base64.RawStdEncoding salt
             +:+ "$" +:+ base64.EncodeToString base64.RawStdEncoding key, None).
Proof.
  intros Hne. unfold HashPassword.
  rewrite bool_decide_eq_false_2; [reflexivity|].
  destruct password; [contradiction | discriminate].
Qed.

(** The salt [HashPassword] draws from a source, and the key it derives. *)
Definition salt_of (src : nat -> byte) : list byte := map src (seq 0 16).

Definition key_of (src : nat -> byte) (password : string) : list byte :=
  argon2id (bytes_of password) (salt_of src) 1 65536 4 32.

(** Verifying any password against a fresh hash compares the two derived
    keys, and returns no error. *)
Lemma ComparePassword_fresh src p1 p2 hash :
  HashPassword (Source src) p2 = Returns (hash, None) ->
  ComparePassword p1 hash
  = Returns (bool_decide (key_of src p2 = key_of src p1), None).
Proof.
  destruct (decide (p2 = "")) as [-> | Hne]; [discriminate|].
  rewrite HashPassword_Source by assumption. intros [= <-].
  rewrite (ComparePassword_fields p1 _ "" "v=19" "m=65536,t=1,p=4"
             (base64.EncodeToString base64.RawStdEncoding (salt_of src))
             (base64.EncodeToString base64.RawStdEncoding (key_of src p2))
             "m=65536" "t=1" "p=4" 65536 1 4 (salt_of src) (key_of src p2)).
  - reflexivity.
  - apply Split_encoded; apply base64.EncodeToString_raw_free_of_dollar.
  - reflexivity.
  - reflexivity.
  - reflexivity.
  - reflexivity.
  - apply base64.DecodeString_EncodeToString, base64.standard_RawStd.
  - apply base64.DecodeString_EncodeToString, base64.standard_RawStd.
Qed.

(** C3, as amended.  For every non-empty password and every salt drawn,
    [HashPassword] returns a hash with no error, and [ComparePassword] of the
    same password against it returns true with no error.  For any two
    non-empty passwords, [ComparePassword(p1, HashPassword(p2))] returns
    false, with no error, whenever Argon2id derives different keys for
    them under the drawn salt; it returns true when the keys coincide. *)
Theorem ComparePassword_HashPassword src p1 p2 :
  p1 <> "" -> p2 <> "" ->
  exists hash,
    HashPassword (Source src) p2 = Returns (hash, None)
    /\ (p1 = p2 -> ComparePassword p1 hash = Returns (true, None))
    /\ (key_of src p1 <> key_of src p2 -> ComparePassword p1 hash = Returns (false, None))
    /\ (key_of src p1 = key_of src p2 -> ComparePassword p1 hash = Returns (true, None)).
Proof.
  intros _ Hp2.
  pose proof (HashPassword_Source src p2 Hp2) as Hhash. cbv zeta in Hhash.
  eexists. split; [exact Hhash|].
  rewrite (ComparePassword_fresh src p1 p2 _ Hhash).
  repeat split.
  - intros ->. now rewrite bool_decide_eq_true_2.
  - intros Hkeys. rewrite bool_decide_eq_false_2; [reflexivity | congruence].
  - intros Hkeys. now rewrite bool_decide_eq_true_2.
Qed.

(** The package returns a key of the length it is asked for. *)
Definition key_length_respected : Prop :=
  forall password salt time memory threads keyLen,
    length (argon2id password salt time memory threads keyLen) = Z.to_nat keyLen.

(** C6.  For every non-empty password, [HashPassword] returns
    [$argon2id$v=19$m=65536,t=1,p=4$<salt>$<hash>], where <salt> is the
    unpadded standard base64 of the 16 bytes drawn and <hash> that of the 32
    bytes of the Argon2id key; split on "$" it has six fields, the first one
    empty. *)
Theorem HashPassword_format src password :
  key_length_respected -> password <> "" ->
  let b64Salt := base64.EncodeToString base64.RawStdEncoding (salt_of src) in
  let b64Hash := base64.EncodeToString base64.RawStdEncoding (key_of src password) in
  let encoded := "$argon2id$v=19$m=65536,t=1,p=4$" +:+ b64Salt +:+ "$" +:+ b64Hash in
  HashPassword (Source src) password = Returns (encoded, None)
  /\ length (salt_of src) = 16%nat
  /\ length (key_of src password) = 32%nat
  /\ strings.Split encoded "$"
     = [""; "argon2id"; "v=19"; "m=65536,t=1,p=4"; b64Salt; b64Hash].
Proof.
  intros Hlen Hne. repeat split.
  - now apply HashPassword_Source.
  - unfold key_of. now rewrite Hlen.
  - apply Split_encoded; apply base64.EncodeToString_raw_free_of_dollar.
Qed.

(** The malformations of an encoded hash, in the words of the
    specification: a decimal parameter is the notation of a number below
    [2^32]; a base64 field is one the unpadded standard decoder accepts. *)
Definition uint32_notation (s : string) : Prop :=
  exists v, strconv.decimal s = Some v /\ v < 2 ^ 32.

Definition malformed (hash : string) : Prop :=
  let parts := strings.Split hash "$" in
  let params := strings.Split (parts !!! 3%nat) "," in
  length parts <> 6%nat
  \/ parts !!! 1%nat <> "argon2id"
  \/ length params <> 3%nat
  \/ ~ uint32_notation (strings.TrimPrefix (params !!! 0%nat) "m=")
  \/ ~ uint32_notation (strings.TrimPrefix (params !!! 1%nat) "t=")
  \/ ~ uint32_notation (strings.TrimPrefix (params !!! 2%nat) "p=")
  \/ base64.DecodeString base64.RawStdEncoding (parts !!! 4%nat) = None
  \/ base64.DecodeString base64.RawStdEncoding (parts !!! 5%nat) = None.

Lemma ParseUint32_ok s v :
  strconv.ParseUint s 32 = (v, None) -> uint32_notation s.
Proof. intros H. apply strconv.ParseUint_spec in H; [|lia]. now exists v. Qed.

Lemma ParseUint32_error s v e :
  strconv.ParseUint s 32 = (v, Some e) -> ~ uint32_notation s.
Proof. intros H. apply (strconv.ParseUint_error s 32); [lia | eauto]. Qed.

(** C7.  [ComparePassword] returns false and [ErrInvalidHashFormat] exactly
    when the hash is malformed; it returns no other error; and since being
    malformed depends on the hash alone, the outcome is then the same for
    every password and every key-derivation function: the password is not
    looked at. *)
Theorem ComparePassword_invalid_format password hash :
  (ComparePassword password hash = Returns (false, Some ErrInvalidHashFormat)
   <-> malformed hash)
  /\ (forall r e, ComparePassword password hash = Returns (r, Some e) ->
       r = false /\ e = ErrInvalidHashFormat).
Proof.
  unfold ComparePassword, malformed.
  set (parts := strings.Split hash "$").
  set (params := strings.Split (parts !!! 3%nat) ",").
  case_bool_decide as Hparts; [split; [tauto | now intros r e [= <- <-]]|].
  case_bool_decide as Halg; [split; [tauto | now intros r e [= <- <-]]|].
  case_bool_decide as Hparams; [split; [tauto | now intros r e [= <- <-]]|].
  destruct (strconv.ParseUint (strings.TrimPrefix (params !!! 0%nat) "m=") 32)
    as [memory [em|]] eqn:Hm.
  { apply ParseUint32_error in Hm. split; [tauto | now intros r e [= <- <-]]. }
  apply ParseUint32_ok in Hm.
  destruct (strconv.ParseUint (strings.TrimPrefix (params !!! 1%nat) "t=") 32)
    as [time [et|]] eqn:Ht.
  { apply ParseUint32_error in Ht. split; [tauto | now intros r e [= <- <-]]. }
  apply ParseUint32_ok in Ht.
  destruct (strconv.ParseUint (strings.TrimPrefix (params !!! 2%nat) "p=") 32)
    as [threads [ep|]] eqn:Hp.
  { apply ParseUint32_error in Hp. split; [tauto | now intros r e [= <- <-]]. }
  apply ParseUint32_ok in Hp.
  destruct (base64.DecodeString base64.RawStdEncoding (parts !!! 4%nat))
    as [salt|] eqn:Hsalt; [|split; [tauto | now intros r e [= <- <-]]].
  destruct (base64.DecodeString base64.RawStdEncoding (parts !!! 5%nat))
    as [key|] eqn:Hkey; [|split; [tauto | now intros r e [= <- <-]]].
  destruct (argon2.IDKey _ _ _ _ _ _ _) as [computed|msg|msg]; simpl;
    (split; [|intros r e [=]]; split; [intros [=]|];
     intros [?|[?|[?|[?|[?|[?|[?|?]]]]]]]; try contradiction; discriminate).
Qed.

Lemma uint8_add_256 n : uint8 (n + 256) = uint8 n.
Proof.
  unfold uint8. change (2 ^ 8) with 256.
  rewrite <- (Z.mul_1_l 256) at 1. apply Z.mod_add. lia.
Qed.

(** C9, as amended.  The lane count of a hash is parsed as a 32-bit
    unsigned integer and narrowed to eight bits: two hashes that differ only
    in that the second states, in any decimal notation, 256 lanes more than
    the first, and still fewer than [2^32], get the same result.  In
    particular a hash that states [p=260] verifies against the key derived
    with 4 lanes. *)
Theorem ComparePassword_threads_mod_256 :
  (forall password h h' f0 f1 f2 f3 f3' f4 f5 m t p p' n,
     strings.Split h "$" = [f0; f1; f2; f3; f4; f5] ->
     strings.Split h' "$" = [f0; f1; f2; f3'; f4; f5] ->
     strings.Split f3 "," = [m; t; p] ->
     strings.Split f3' "," = [m; t; p'] ->
     strconv.ParseUint (strings.TrimPrefix p "p=") 32 = (n, None) ->
     strconv.decimal (strings.TrimPrefix p' "p=") = Some (n + 256) ->
     n + 256 < 2 ^ 32 ->
     ComparePassword password h = ComparePassword password h')
  /\ (forall password salt,
       let key := argon2id (bytes_of password) salt 1 65536 4 32 in
       ComparePassword password
         ("$argon2id$v=19$m=65536,t=1,p=260$"
          +:+ base64.EncodeToString base64.RawStdEncoding salt
          +:+ "$" +:+ base64.EncodeToString base64.RawStdEncoding key)
       = Returns (true, None)).
Proof.
  split.
  - intros password h h' f0 f1 f2 f3 f3' f4 f5 m t p p' n
      Hh Hh' Hf3 Hf3' Hp Hp' Hrange.
    assert (Hparse' : strconv.ParseUint (strings.TrimPrefix p' "p=") 32 = (n + 256, None)).
    { apply strconv.ParseUint_spec; [lia | auto]. }
    unfold ComparePassword. rewrite Hh, Hh'. simpl.
    case_bool_decide; [reflexivity|].
    rewrite Hf3, Hf3'. simpl.
    rewrite Hp, Hparse', uint8_add_256. reflexivity.
  - intros password salt key.
    rewrite (ComparePassword_fields password _ "" "v=19" "m=65536,t=1,p=260"
               (base64.EncodeToString base64.RawStdEncoding salt)
               (base64.EncodeToString base64.RawStdEncoding key)
               "m=65536" "t=1" "p=260" 65536 1 260 salt key).
    + change (uint8 260) with 4. change (uint32 1) with 1.
      change (uint32 65536) with 65536. change (uint32 32) with 32.
      unfold argon2.IDKey. simpl. fold key.
      unfold hmac.Equal. now rewrite bool_decide_eq_true_2.
    + change ("$argon2id$v=19$m=65536,t=1,p=260$"
              +:+ base64.EncodeToString base64.RawStdEncoding salt
              +:+ "$" +:+ base64.EncodeToString base64.RawStdEncoding key)
        with ("" +:+ String "$" ("argon2id" +:+ String "$" ("v=19" +:+ String "$"
               ("m=65536,t=1,p=260" +:+ String "$"
                 (base64.EncodeToString base64.RawStdEncoding salt +:+ String "$"
                   (base64.EncodeToString base64.RawStdEncoding key)))))).
      rewrite !strings.Split_app
        by (reflexivity || apply base64.EncodeToString_raw_free_of_dollar).
      now rewrite strings.Split_free by apply base64.EncodeToString_raw_free_of_dollar.
    + reflexivity.
    + reflexivity.
    + reflexivity.
    + reflexivity.
    + apply base64.DecodeString_EncodeToString, base64.standard_RawStd.
    + apply base64.DecodeString_EncodeToString, base64.standard_RawStd.
Qed.

(** C10.  [ComparePassword] never looks at the version field, the third
    element of the hash split on "$" (the first is the empty text before the
    leading "$"): two hashes whose fields are the same in number and equal
    but for that one get the same result. *)
Theorem ComparePassword_ignores_version password h h' :
  length (strings.Split h "$") = length (strings.Split h' "$") ->
  (forall i, i <> 2%nat -> strings.Split h "$" !! i = strings.Split h' "$" !! i) ->
  ComparePassword password h = ComparePassword password h'.
Proof.
  intros Hlen Hfields. unfold ComparePassword.
  rewrite !list_lookup_total_alt, Hlen.
  rewrite (Hfields 1%nat), (Hfields 3%nat), (Hfields 4%nat), (Hfields 5%nat) by lia.
  reflexivity.
Qed.

End PasswordHasher.

(** *** Instances and counterexamples for the hasher *)

(** A stand-in for Argon2id that returns [keyLen] bytes: the password and
    the salt, cut or filled with zeros.  It serves where a statement needs
    some function of the right shape to be evaluated on. *)
Definition toy_argon2id (password salt : list byte) (time memory threads keyLen : Z)
  : list byte :=
  resize (Z.to_nat keyLen) x00 (password ++ salt)%list.

Lemma toy_argon2id_length : key_length_respected toy_argon2id.
Proof. intros password salt time memory threads keyLen. apply length_resize. Qed.

Definition zeros : nat -> byte := fun _ => x00.

Lemma ComparePassword_HashPassword_witness :
  exists hash,
    HashPassword toy_argon2id (Source zeros) "password" = Returns (hash, None)
    /\ ComparePassword toy_argon2id "password" hash = Returns (true, None)
    /\ ComparePassword toy_argon2id "Password" hash = Returns (false, None).
Proof.
  destruct (ComparePassword_HashPassword toy_argon2id zeros "password" "password")
    as (hash & Hhash & Hsame & _); [discriminate | discriminate |].
  destruct (ComparePassword_HashPassword toy_argon2id zeros "Password" "password")
    as (hash' & Hhash' & _ & Hother & _); [discriminate | discriminate |].
  exists hash. split; [exact Hhash|]. split; [apply Hsame; reflexivity|].
  assert (hash' = hash) as -> by congruence.
  apply Hother. vm_compute. discriminate.
Defined.

(** C3 as stated fails.  A key has 32 bytes and passwords are not bounded,
    so whatever the key-derivation function is, two of the non-empty
    passwords of 33 bytes have the same key under a salt, and each verifies
    against the hash of the other. *)
Lemma no_key_derivation_separates_passwords :
  ~ exists argon2id,
      key_length_respected argon2id /\
      forall src p1 p2 hash,
        p1 <> "" -> p2 <> "" -> p1 <> p2 ->
        HashPassword argon2id (Source src) p2 = Returns (hash, None) ->
        ComparePassword argon2id p1 hash = Returns (false, None).
Proof.
  intros (argon2id & Hlen & Hclaim).
  apply (words.no_injection (fun l => argon2id l (salt_of zeros) 1 65536 4 32) 32).
  { intros l _. now rewrite Hlen. }
  intros l1 l2 Hl1 Hl2 Hkeys.
  destruct (decide (l1 = l2)) as [|Hdiff]; [assumption | exfalso].
  assert (Hbytes : forall l, bytes_of (string_of l) = l)
    by apply list_byte_of_string_of_list_byte.
  assert (Hne : forall l, length l = 33%nat -> string_of l <> "").
  { intros l Hl Hempty. apply (f_equal bytes_of) in Hempty.
    rewrite Hbytes in Hempty. subst l. discriminate. }
  pose proof (HashPassword_Source argon2id zeros (string_of l2) (Hne l2 Hl2)) as Hhash.
  cbv zeta in Hhash.
  assert (Hstrings : string_of l1 <> string_of l2).
  { intros Heq. apply Hdiff. rewrite <- (Hbytes l1), <- (Hbytes l2). now f_equal. }
  pose proof (Hclaim zeros (string_of l1) (string_of l2) _
                (Hne l1 Hl1) (Hne l2 Hl2) Hstrings Hhash) as Hfalse.
  rewrite (ComparePassword_fresh argon2id zeros (string_of l1) (string_of l2) _ Hhash)
    in Hfalse.
  unfold key_of in Hfalse. rewrite !Hbytes in Hfalse.
  rewrite bool_decide_eq_true_2 in Hfalse by congruence. discriminate Hfalse.
Qed.

Lemma HashPassword_format_witness :
  HashPassword toy_argon2id (Source zeros) "password"
  = Returns ("$argon2id$v=19$m=65536,t=1,p=4$AAAAAAAAAAAAAAAAAAAAAA$cGFzc3dvcmQAAAAAAAAAAAAAAAAAAAAAAAAAAAAAAAA", None).
Proof.
  destruct (HashPassword_format toy_argon2id zeros "password" toy_argon2id_length)
    as (Hhash & _); [discriminate|].
  rewrite Hhash. vm_compute. reflexivity.
Defined.

Lemma ComparePassword_threads_mod_256_witness :
  ComparePassword toy_argon2id "password"
    "$argon2id$v=19$m=65536,t=1,p=4$AAAAAAAAAAAAAAAAAAAAAA$cGFzc3dvcmQAAAAAAAAAAAAAAAAAAAAAAAAAAAAAAAA"
  = ComparePassword toy_argon2id "password"
    "$argon2id$v=19$m=65536,t=1,p=260$AAAAAAAAAAAAAAAAAAAAAA$cGFzc3dvcmQAAAAAAAAAAAAAAAAAAAAAAAAAAAAAAAA".
Proof.
  apply (proj1 (ComparePassword_threads_mod_256 toy_argon2id) "password" _ _
           "" "argon2id" "v=19" "m=65536,t=1,p=4" "m=65536,t=1,p=260"
           "AAAAAAAAAAAAAAAAAAAAAA" "cGFzc3dvcmQAAAAAAAAAAAAAAAAAAAAAAAAAAAAAAAA"
           "m=65536" "t=1" "p=4" "p=260" 4);
    first [reflexivity | lia].
Defined.

(** C9 as stated fails at the top of the 32-bit range: the hash that
    states 4294967044 lanes is well formed (and is verified with 4 lanes),
    the one that states 256 more is rejected as malformed. *)
Lemma threads_plus_256_out_of_range :
  let h := "$argon2id$v=19$m=65536,t=1,p=4294967044$c2FsdA$aGFzaA" in
  let h' := "$argon2id$v=19$m=65536,t=1,p=4294967300$c2FsdA$aGFzaA" in
  strconv.ParseUint "4294967044" 32 = (4294967044, None)
  /\ strconv.decimal "4294967300" = Some (4294967044 + 256)
  /\ forall argon2id password,
       ComparePassword argon2id password h' = Returns (false, Some ErrInvalidHashFormat)
       /\ ComparePassword argon2id password h <> ComparePassword argon2id password h'.
Proof.
  split; [reflexivity|]. split; [reflexivity|].
  intros argon2id password.
  assert (Hbad : ComparePassword argon2id password
                   "$argon2id$v=19$m=65536,t=1,p=4294967300$c2FsdA$aGFzaA"
                 = Returns (false, Some ErrInvalidHashFormat)) by reflexivity.
  split; [exact Hbad|]. rewrite Hbad.
  rewrite (ComparePassword_fields argon2id password _ "" "v=19"
             "m=65536,t=1,p=4294967044" "c2FsdA" "aGFzaA"
             "m=65536" "t=1" "p=4294967044" 65536 1 4294967044
             (bytes_of "salt") (bytes_of "hash")) by reflexivity.
  change (uint8 4294967044) with 4. unfold argon2.IDKey. simpl. discriminate.
Qed.

Lemma ComparePassword_ignores_version_witness :
  ComparePassword toy_argon2id "password"
    "$argon2id$v=19$m=65536,t=1,p=4$AAAAAAAAAAAAAAAAAAAAAA$cGFzc3dvcmQAAAAAAAAAAAAAAAAAAAAAAAAAAAAAAAA"
  = ComparePassword toy_argon2id "password"
    "$argon2id$no version at all$m=65536,t=1,p=4$AAAAAAAAAAAAAAAAAAAAAA$cGFzc3dvcmQAAAAAAAAAAAAAAAAAAAAAAAAAAAAAAAA".
Proof.
  apply ComparePassword_ignores_version; [vm_compute; reflexivity|].
  intros [|[|[|[|[|[|i]]]]]] Hi; first [contradiction | vm_compute; reflexivity].
Defined.

Example ComparePassword_accepts_fresh_hash :
  ComparePassword toy_argon2id "password"
    "$argon2id$v=19$m=65536,t=1,p=4$AAAAAAAAAAAAAAAAAAAAAA$cGFzc3dvcmQAAAAAAAAAAAAAAAAAAAAAAAAAAAAAAAA"
  = Returns (true, None).
Proof. vm_compute. reflexivity. Qed.

Example ComparePassword_no_rounds_panics :
  ComparePassword toy_argon2id "password" "$argon2id$v=19$m=65536,t=0,p=4$c2FsdA$aGFzaA"
  = Panics "argon2: number of rounds too small".
Proof. vm_compute. reflexivity. Qed.

Example ComparePassword_256_lanes_panics :
  ComparePassword toy_argon2id "password" "$argon2id$v=19$m=65536,t=1,p=256$c2FsdA$aGFzaA"
  = Panics "argon2: parallelism degree too low".
Proof. vm_compute. reflexivity. Qed.


(** *** Further properties of the hasher *)

Section HasherOutcomes.

Variable argon2id : list byte -> list byte -> Z -> Z -> Z -> Z -> list byte.

#[local] Arguments base64.DecodeString : simpl never.
#[local] Arguments base64.EncodeToString : simpl never.
#[local] Arguments strconv.ParseUint : simpl never.
#[local] Arguments strings.TrimPrefix : simpl never.

(** X1.  [HashPassword] returns an error for the empty password only,
    [ErrPasswordEmpty] with the empty string; with a working entropy source
    it returns a hash and no error, and it never panics.  When the entropy
    source fails it does not return: [rand.Read] ends the process with a
    fatal error, so [ErrFailedToGenerateSalt] is returned in no case. *)
Theorem HashPassword_outcomes rand password :
  (password = "" ->
   HashPassword argon2id rand password = Returns ("", Some ErrPasswordEmpty))
  /\ (password <> "" ->
      forall src, exists hash,
        HashPassword argon2id (Source src) password = Returns (hash, None))
  /\ (password <> "" ->
      exists msg, HashPassword argon2id Broken password = Fatal msg)
  /\ (forall s e,
        HashPassword argon2id rand password = Returns (s, Some e) ->
        s = "" /\ e = ErrPasswordEmpty /\ password = "")
  /\ (forall msg, HashPassword argon2id rand password <> Panics msg).
Proof.
  split; [now intros ->|].
  split.
  { intros Hne src. rewrite HashPassword_Source by assumption. cbv zeta. eauto. }
  split.
  { intros Hne. unfold HashPassword.
    rewrite bool_decide_eq_false_2; [simpl; eauto|].
    destruct password; [contradiction | discriminate]. }
  split.
  - intros s e. unfold HashPassword.
    case_bool_decide as Hempty.
    + intros [= <- <-]. repeat split.
      destruct password; [reflexivity | discriminate].
    + destruct rand as [src|]; discriminate.
  - intros msg. unfold HashPassword.
    case_bool_decide; [discriminate|].
    destruct rand as [src|]; discriminate.
Qed.

Lemma Returns_value_inj {A} (a b : A) (e e' : option error) :
  Returns (a, e) = Returns (b, e') -> a = b.
Proof. now intros [= -> _]. Qed.

(** X2.  Two hashes made with different salts are different strings,
    whatever the two passwords are: the salt can be read off the hash. *)
Theorem HashPassword_salts_differ src src' password password' hash hash' :
  HashPassword argon2id (Source src) password = Returns (hash, None) ->
  HashPassword argon2id (Source src') password' = Returns (hash', None) ->
  salt_of src <> salt_of src' ->
  hash <> hash'.
Proof.
  intros Hhash Hhash' Hsalts Heq. apply Hsalts.
  destruct (decide (password = "")) as [-> | Hne]; [discriminate|].
  destruct (decide (password' = "")) as [-> | Hne']; [discriminate|].
  rewrite HashPassword_Source in Hhash, Hhash' by assumption.
  cbv zeta in Hhash, Hhash'.
  apply Returns_value_inj in Hhash, Hhash'.
  apply (f_equal (fun h => strings.Split h "$" !! 4%nat)) in Heq.
  rewrite <- Hhash, <- Hhash' in Heq.
  rewrite !Split_encoded in Heq by apply base64.EncodeToString_raw_free_of_dollar.
  simpl in Heq.
  apply (base64.EncodeToString_inj base64.RawStdEncoding);
    [apply base64.standard_RawStd | injection Heq as Heq; exact Heq].
Qed.

(** The number a hash states for a parameter: the value [ParseUint] reads
    from the entry, the prefix removed. *)
Definition stated (hash : string) (i : nat) (pre : string) : Z :=
  fst (strconv.ParseUint
         (strings.TrimPrefix
            (strings.Split (strings.Split hash "$" !!! 3%nat) "," !!! i) pre) 32).

Lemma ParseUint32_value s v :
  strconv.ParseUint s 32 = (v, None) -> 0 <= v < 2 ^ 32.
Proof.
  intros [Hv Hlt]%strconv.ParseUint_spec; [|lia].
  split; [|assumption].
  destruct s as [|c s]; [discriminate|].
  apply strconv.digits_value_ge in Hv; lia.
Qed.

(** X3.  A well-formed hash can make [ComparePassword] panic: one that
    states zero passes, or a number of lanes that is a multiple of 256 (zero
    once narrowed to eight bits).  The Argon2 package refuses both before it
    derives anything, with the messages below. *)
Theorem ComparePassword_panics password hash :
  ~ malformed hash ->
  (stated hash 1 "t=" = 0 ->
   ComparePassword argon2id password hash = Panics "argon2: number of rounds too small")
  /\ (stated hash 1 "t=" <> 0 -> stated hash 2 "p=" mod 256 = 0 ->
      ComparePassword argon2id password hash
      = Panics "argon2: parallelism degree too low").
Proof.
  unfold ComparePassword, malformed, stated.
  set (parts := strings.Split hash "$").
  set (params := strings.Split (parts !!! 3%nat) ",").
  intros Hwell.
  case_bool_decide as Hparts; [tauto|].
  case_bool_decide as Halg; [tauto|].
  case_bool_decide as Hparams; [tauto|].
  destruct (strconv.ParseUint (strings.TrimPrefix (params !!! 0%nat) "m=") 32)
    as [memory [em|]] eqn:Hm.
  { apply ParseUint32_error in Hm. tauto. }
  destruct (strconv.ParseUint (strings.TrimPrefix (params !!! 1%nat) "t=") 32)
    as [time [et|]] eqn:Ht.
  { apply ParseUint32_error in Ht. tauto. }
  destruct (strconv.ParseUint (strings.TrimPrefix (params !!! 2%nat) "p=") 32)
    as [threads [ep|]] eqn:Hp.
  { apply ParseUint32_error in Hp. tauto. }
  destruct (base64.DecodeString base64.RawStdEncoding (parts !!! 4%nat))
    as [salt|] eqn:Hsalt; [|tauto].
  destruct (base64.DecodeString base64.RawStdEncoding (parts !!! 5%nat))
    as [key|] eqn:Hkey; [|tauto].
  pose proof (ParseUint32_value _ _ Ht) as Htime.
  unfold argon2.IDKey, uint32, uint8. simpl fst.
  rewrite (Z.mod_small time) by lia.
  change (2 ^ 8) with 256.
  split.
  - intros ->. reflexivity.
  - intros Hrounds ->.
    rewrite (proj2 (Z.ltb_ge _ _)) by lia. reflexivity.
Qed.

End HasherOutcomes.

Lemma HashPassword_salts_differ_witness :
  exists hash hash',
    HashPassword toy_argon2id (Source zeros) "password" = Returns (hash, None)
    /\ HashPassword toy_argon2id (Source (fun _ => x01)) "password" = Returns (hash', None)
    /\ hash <> hash'.
Proof.
  do 2 eexists. split; [reflexivity|]. split; [reflexivity|].
  apply (HashPassword_salts_differ toy_argon2id zeros (fun _ => x01) "password" "password").
  - reflexivity.
  - reflexivity.
  - vm_compute. discriminate.
Defined.

Lemma ComparePassword_panics_witness :
  ComparePassword toy_argon2id "password" "$argon2id$v=19$m=65536,t=1,p=256$c2FsdA$aGFzaA"
  = Panics "argon2: parallelism degree too low".
Proof.
  refine (proj2 (ComparePassword_panics toy_argon2id "password"
                   "$argon2id$v=19$m=65536,t=1,p=256$c2FsdA$aGFzaA" _) _ _).
  - unfold malformed.
    replace (strings.Split "$argon2id$v=19$m=65536,t=1,p=256$c2FsdA$aGFzaA" "$")
      with [""; "argon2id"; "v=19"; "m=65536,t=1,p=256"; "c2FsdA"; "aGFzaA"]
      by (vm_compute; reflexivity).
    cbn [lookup_total list_lookup_total].
    replace (strings.Split "m=65536,t=1,p=256" ",") with ["m=65536"; "t=1"; "p=256"]
      by (vm_compute; reflexivity).
    cbn [lookup_total list_lookup_total length].
    intros [H|[H|[H|[H|[H|[H|[H|H]]]]]]].
    + now apply H.
    + now apply H.
    + now apply H.
    + apply H. exists 65536. split; [vm_compute; reflexivity | reflexivity].
    + apply H. exists 1. split; [vm_compute; reflexivity | reflexivity].
    + apply H. exists 256. split; [vm_compute; reflexivity | reflexivity].
    + vm_compute in H. discriminate H.
    + vm_compute in H. discriminate H.
  - vm_compute. discriminate.
  - vm_compute. reflexivity.
Defined.

Section HasherKeyLength.

Variable argon2id : list byte -> list byte -> Z -> Z -> Z -> Z -> list byte.

#[local] Arguments base64.DecodeString : simpl never.
#[local] Arguments strconv.ParseUint : simpl never.
#[local] Arguments strings.TrimPrefix : simpl never.

(** X21.  The length of the key is not read from the hash: [ComparePassword]
    always derives 32 bytes, so a hash whose key field decodes to any other
    number of bytes verifies for no password, whatever its other fields. *)
Theorem ComparePassword_key_length password hash key err :
  key_length_respected argon2id ->
  base64.DecodeString base64.RawStdEncoding (strings.Split hash "$" !!! 5%nat) = Some key ->
  length key <> 32%nat ->
  ComparePassword argon2id password hash <> Returns (true, err).
Proof.
  intros Hlength Hkey Hshort. unfold ComparePassword.
  set (parts := strings.Split hash "$") in *.
  set (params := strings.Split (parts !!! 3%nat) ",").
  case_bool_decide; [discriminate|].
  case_bool_decide; [discriminate|].
  case_bool_decide; [discriminate|].
  destruct (strconv.ParseUint (strings.TrimPrefix (params !!! 0%nat) "m=") 32)
    as [memory [em|]]; [discriminate|].
  destruct (strconv.ParseUint (strings.TrimPrefix (params !!! 1%nat) "t=") 32)
    as [time [et|]]; [discriminate|].
  destruct (strconv.ParseUint (strings.TrimPrefix (params !!! 2%nat) "p=") 32)
    as [threads [ep|]]; [discriminate|].
  destruct (base64.DecodeString base64.RawStdEncoding (parts !!! 4%nat))
    as [salt|]; [|discriminate].
  rewrite Hkey. unfold argon2.IDKey.
  destruct (uint32 time <? 1); [discriminate|].
  destruct (uint8 threads <? 1); [discriminate|].
  cbn [mbind outcome_bind]. unfold hmac.Equal.
  intros [= Hequal _]. apply bool_decide_eq_true_1 in Hequal.
  apply Hshort. rewrite Hequal, Hlength. reflexivity.
Qed.

End HasherKeyLength.

(** The hash of "password" under the stand-in, its key cut to 16 bytes. *)
Lemma ComparePassword_key_length_witness :
  ComparePassword toy_argon2id "password"
    "$argon2id$v=19$m=65536,t=1,p=4$AAAAAAAAAAAAAAAAAAAAAA$cGFzc3dvcmQAAAAAAAAAAA"
  <> Returns (true, None).
Proof.
  apply (ComparePassword_key_length toy_argon2id "password"
           "$argon2id$v=19$m=65536,t=1,p=4$AAAAAAAAAAAAAAAAAAAAAA$cGFzc3dvcmQAAAAAAAAAAA"
           (bytes_of "password" ++ repeat x00 8)%list None).
  - exact toy_argon2id_length.
  - vm_compute. reflexivity.
  - vm_compute. discriminate.
Defined.

(** ** Package account: the token issuer and validator *)

(** [domain.Account], with the fields of a credential; the tokens read
    [ID], a Go [uint] (64 bits on the platforms the service is built for). *)
Record Account := {
  ID : Z;
  Email : string;
  Password : string;
}.

(** Package time: an instant is its number of nanoseconds since the Unix
    epoch; [Unix] is [Time.Unix()], [Hour] is [time.Hour]. *)
Definition Second : Z := 1000000000.
Definition Hour : Z := 3600 * Second.
Definition Unix (t : Z) : Z := t / Second.

Section Tokens.

Variable HMAC : jwt.SigningMethod -> list byte -> string -> list byte.
Variable segments : jwt.SigningMethod -> gmap string jwt.GoValue -> string.

(** What [uint(f)] is for a float64 outside the range of [uint]: the
    language leaves it to the implementation. *)
Variable uint_unrepresentable : Q -> Z.

Definition uint_of_float64 (f : Q) : Z :=
  let n := float64.trunc f in
  if (0 <=? n) && (n <? 2 ^ 64) then n else uint_unrepresentable f.

(** The claims of a session token and of a password-reset token. *)
Definition session_claims (iatNow expNow : Z) (account : Account)
  : gmap string jwt.GoValue :=
  {[ "sub" := jwt.GoUint (ID account);
     "iss" := jwt.GoString "spsyncpro_api";
     "iat" := jwt.GoInt64 (Unix iatNow);
     "exp" := jwt.GoInt64 (Unix (expNow + 24 * Hour)) ]}.

Definition reset_claims (iatNow expNow : Z) (account : Account)
  : gmap string jwt.GoValue :=
  {[ "sub" := jwt.GoString (strconv.FormatUint (ID account) +:+ ":password-reset");
     "iss" := jwt.GoString "spsyncpro_api";
     "iat" := jwt.GoInt64 (Unix iatNow);
     "exp" := jwt.GoInt64 (Unix (expNow + 24 * Hour)) ]}.

(** [GenerateAuthToken(ctx, account)].  [jwtSecret] is what
    [viper.GetString("JWT_SECRET")] returns; [iatNow] and [expNow] are the
    two readings of [time.Now()]. *)
Definition GenerateAuthToken (jwtSecret : string) (iatNow expNow : Z) (account : Account)
  : outcome (jwt.TokenString * option error) :=
  if bool_decide (jwtSecret = "") then Returns (jwt.Malformed "", Some ErrJWTSecretNotSet)
  else
    let token := session_claims iatNow expNow account in
    Returns (jwt.SignedString HMAC segments jwt.HS256 token (bytes_of jwtSecret), None).

(** [ValidateAuthToken(ctx, token)]; [now] is the time of the call. *)
Definition ValidateAuthToken (jwtSecret : string) (now : Z) (token : jwt.TokenString)
  : outcome (Z * option error) :=
  if bool_decide (jwtSecret = "") then Returns (0, Some ErrJWTSecretNotSet)
  else
    match jwt.Parse HMAC token (bytes_of jwtSecret) now with
    | inr err => Returns (0, Some (ErrJWT err))
    | inl claims =>
        match claims !! "sub" with
        | None => Returns (0, Some ErrSubjectClaimNotFound)
        | Some subClaim =>
            match subClaim with
            | jwt.JNumber accountIDFloat => Returns (uint_of_float64 accountIDFloat, None)
            | _ => Returns (0, Some ErrInvalidSubjectClaim)
            end
        end
    end.

(** [GeneratePasswordResetToken(ctx, account)]. *)
Definition GeneratePasswordResetToken (jwtSecret : string) (iatNow expNow : Z)
    (account : Account) : outcome (jwt.TokenString * option error) :=
  if bool_decide (jwtSecret = "") then Returns (jwt.Malformed "", Some ErrJWTSecretNotSet)
  else
    let token := reset_claims iatNow expNow account in
    Returns (jwt.SignedString HMAC segments jwt.HS256 token (bytes_of jwtSecret), None).

(** The name Go prints for the dynamic type of a claim. *)
Definition type_name (v : jwt.Value) : string :=
  match v with
  | jwt.JNull => "nil"
  | jwt.JBool _ => "bool"
  | jwt.JNumber _ => "float64"
  | jwt.JString _ => "string"
  | jwt.JArray => "[]interface {}"
  | jwt.JObject => "map[string]interface {}"
  end.

(** [ValidatePasswordResetToken(ctx, token)].  The subject is asserted to
    be a string with [subClaim.(string)], the form of the assertion that
    panics on any other type. *)
Definition ValidatePasswordResetToken (jwtSecret : string) (now : Z)
    (token : jwt.TokenString) : outcome (Z * option error) :=
  if bool_decide (jwtSecret = "") then Returns (0, Some ErrJWTSecretNotSet)
  else
    match jwt.Parse HMAC token (bytes_of jwtSecret) now with
    | inr err => Returns (0, Some (ErrJWT err))
    | inl claims =>
        match claims !! "sub" with
        | None => Returns (0, Some ErrSubjectClaimNotFound)
        | Some subClaim =>
            match subClaim with
            | jwt.JString sub =>
                let parts := strings.Split sub ":" in
                if bool_decide (length parts ≠ 2%nat) then
                  Returns (0, Some ErrInvalidSubjectClaim)
                else
                  match strconv.ParseUint (parts !!! 0%nat) 64 with
                  | (_, Some err) => Returns (0, Some (ErrNum err))
                  | (accountID, None) =>
                      if bool_decide (parts !!! 1%nat ≠ "password-reset") then
                        Returns (0, Some ErrInvalidSubjectClaim)
                      else Returns (accountID, None)
                  end
            | other =>
                Panics ("interface conversion: interface {} is "
                        +:+ type_name other +:+ ", not string")
            end
        end
    end.

(** *** The validators' properties *)

(** The instant a token issued at [expNow] expires: 24 hours later, cut to
    the second. *)
Definition expiry (expNow : Z) : Z := Unix (expNow + 24 * Hour) * Second.

Lemma Unix_add_24h t : Unix (t + 24 * Hour) = Unix t + 86400.
Proof.
  unfold Unix, Hour, Second.
  replace (t + 24 * (3600 * 1000000000)) with (t + 86400 * 1000000000) by lia.
  apply Z.div_add. discriminate.
Qed.

Lemma Unix_range t : 0 <= t < 2 ^ 63 -> 86400 <= Unix (t + 24 * Hour) <= 2 ^ 53.
Proof.
  intros Ht. rewrite Unix_add_24h. unfold Unix, Second.
  assert (0 <= t / 1000000000) by (apply Z.div_pos; lia).
  assert (t / 1000000000 < 9223372037).
  { apply Z.div_lt_upper_bound; [lia|].
    change (2 ^ 63) with 9223372036854775808 in Ht. lia. }
  change (2 ^ 53) with 9007199254740992. lia.
Qed.

Lemma session_exp iatNow expNow account :
  (jwt.decoded <$> session_claims iatNow expNow account) !! "exp"
  = Some (jwt.JNumber (float64.float64_of_int (Unix (expNow + 24 * Hour)))).
Proof. unfold session_claims. rewrite lookup_fmap. by simplify_map_eq. Qed.

Lemma session_nbf iatNow expNow account :
  (jwt.decoded <$> session_claims iatNow expNow account) !! "nbf" = None.
Proof. unfold session_claims. rewrite lookup_fmap. by simplify_map_eq. Qed.

Lemma session_sub iatNow expNow account :
  (jwt.decoded <$> session_claims iatNow expNow account) !! "sub"
  = Some (jwt.JNumber (float64.float64_of_int (ID account))).
Proof. unfold session_claims. rewrite lookup_fmap. by simplify_map_eq. Qed.

(** The claims of a session token validate until it expires, and not
    after. *)
Lemma session_Validate iatNow expNow now account :
  0 <= expNow < 2 ^ 63 ->
  jwt.Validate (jwt.decoded <$> session_claims iatNow expNow account) now
  = if now <? expiry expNow then [] else [ErrTokenExpired].
Proof.
  intros Hclock. pose proof (Unix_range expNow Hclock) as Hexp.
  unfold jwt.Validate, jwt.verifyExpiresAt, jwt.verifyNotBefore, jwt.parseNumericDate.
  rewrite session_exp, session_nbf.
  rewrite float64.float64_of_int_exact by lia.
  unfold float64.is_zero. simpl Qnum.
  rewrite (proj2 (Z.eqb_neq _ _)) by lia.
  rewrite jwt.newNumericDateFromSeconds_int. fold Second. fold (expiry expNow).
  destruct (now <? expiry expNow); reflexivity.
Qed.

(** What parsing a fresh session token yields. *)
Lemma Parse_session jwtSecret iatNow expNow now account :
  0 <= expNow < 2 ^ 63 ->
  jwt.Parse HMAC
    (jwt.SignedString HMAC segments jwt.HS256 (session_claims iatNow expNow account)
       (bytes_of jwtSecret)) (bytes_of jwtSecret) now
  = if now <? expiry expNow
    then inl (jwt.decoded <$> session_claims iatNow expNow account)
    else inr (ErrTokenInvalidClaims [ErrTokenExpired]).
Proof.
  intros Hclock. rewrite jwt.Parse_SignedString, session_Validate by assumption.
  destruct (now <? expiry expNow); reflexivity.
Qed.

(** What [uint(f)] is for the float64 that an account id was decoded to. *)
Lemma uint_of_float64_of_int n :
  0 <= n < 2 ^ 64 - 1024 ->
  uint_of_float64 (float64.float64_of_int n) = float64.round53 n.
Proof.
  intros Hn. pose proof (float64.round53_range n Hn) as Hround.
  unfold uint_of_float64, float64.float64_of_int.
  rewrite float64.trunc_inject_Z, Z.abs_eq by lia.
  assert (Hsgn : Z.sgn n * float64.round53 n = float64.round53 n).
  { destruct (Z.eq_dec n 0) as [-> | Hpos]; [reflexivity|].
    rewrite Z.sgn_pos by lia. lia. }
  rewrite Hsgn.
  rewrite (proj2 (Z.leb_le _ _)), (proj2 (Z.ltb_lt _ _)) by lia.
  reflexivity.
Qed.

(** C2 fails on the code.  A session token validated with the secret that
    signed it, before it expires, yields the account id as a float64 holds
    it: the subject travels as a JSON number, which the parser decodes to a
    float64 and [ValidateAuthToken] converts back with [uint(...)].  The id
    comes back exactly when it has at most 53 significant bits; any other
    id below [2^64 - 1024] comes back as the nearest integer that has, so
    [2^53 + 1] is validated as [2^53]. *)
Theorem ValidateAuthToken_GenerateAuthToken jwtSecret iatNow expNow now account :
  jwtSecret <> "" ->
  0 <= ID account < 2 ^ 64 ->
  0 <= expNow < 2 ^ 63 ->
  now < expiry expNow ->
  exists token,
    GenerateAuthToken jwtSecret iatNow expNow account = Returns (token, None)
    /\ ValidateAuthToken jwtSecret now token
       = Returns (uint_of_float64 (float64.float64_of_int (ID account)), None)
    /\ (ID account < 2 ^ 64 - 1024 ->
        ValidateAuthToken jwtSecret now token
        = Returns (float64.round53 (ID account), None)
        /\ (ValidateAuthToken jwtSecret now token = Returns (ID account, None)
            <-> float64.exact (ID account) = true)).
Proof.
  intros Hsecret Hid Hclock Hnow.
  unfold GenerateAuthToken, ValidateAuthToken.
  rewrite bool_decide_eq_false_2 by assumption.
  eexists. split; [reflexivity|].
  rewrite Parse_session by assumption.
  rewrite (proj2 (Z.ltb_lt _ _)) by assumption.
  rewrite session_sub.
  split; [reflexivity|].
  intros Hbelow. rewrite uint_of_float64_of_int by lia.
  split; [reflexivity|].
  rewrite <- float64.round53_fixed by lia.
  split; [intros [= Heq]; exact Heq | intros ->; reflexivity].
Qed.

(** C1 fails on the code.  The password-reset validator, given a session
    token under the secret that signed it, does not return
    [ErrInvalidSubjectClaim]: before the token expires the unchecked
    assertion [subClaim.(string)] panics on the number that the subject
    of a session token is, and afterwards the parser's error is returned. *)
Theorem ValidatePasswordResetToken_session_token jwtSecret iatNow expNow now account :
  jwtSecret <> "" ->
  0 <= expNow < 2 ^ 63 ->
  exists token,
    GenerateAuthToken jwtSecret iatNow expNow account = Returns (token, None)
    /\ ValidatePasswordResetToken jwtSecret now token
       = if now <? expiry expNow
         then Panics "interface conversion: interface {} is float64, not string"
         else Returns (0, Some (ErrJWT (ErrTokenInvalidClaims [ErrTokenExpired]))).
Proof.
  intros Hsecret Hclock.
  unfold GenerateAuthToken, ValidatePasswordResetToken.
  rewrite bool_decide_eq_false_2 by assumption.
  eexists. split; [reflexivity|].
  rewrite Parse_session by assumption.
  destruct (now <? expiry expNow); [|reflexivity].
  rewrite session_sub. reflexivity.
Qed.

(** Either validator returns the parser's error, whatever it is. *)
Lemma validators_return_Parse_error jwtSecret now token err :
  jwtSecret <> "" ->
  jwt.Parse HMAC token (bytes_of jwtSecret) now = inr err ->
  ValidateAuthToken jwtSecret now token = Returns (0, Some (ErrJWT err))
  /\ ValidatePasswordResetToken jwtSecret now token = Returns (0, Some (ErrJWT err)).
Proof.
  intros Hsecret Hparse. unfold ValidateAuthToken, ValidatePasswordResetToken.
  rewrite bool_decide_eq_false_2 by assumption. now rewrite Hparse.
Qed.

(** A token whose "exp" is a number other than zero that lies before [now]
    does not validate. *)
Lemma Validate_expired claims now f :
  claims !! "exp" = Some (jwt.JNumber f) ->
  float64.is_zero f = false ->
  (f * 1000000000 < inject_Z now)%Q ->
  exists rest, jwt.Validate claims now = ErrTokenExpired :: rest.
Proof.
  intros Hexp Hnonzero Hbefore%jwt.newNumericDateFromSeconds_le.
  unfold jwt.Validate, jwt.verifyExpiresAt, jwt.parseNumericDate.
  rewrite Hexp, Hnonzero.
  rewrite (proj2 (Z.ltb_ge _ _)) by assumption. simpl. eauto.
Qed.

(** C5, as amended.  For every token and every non-empty secret, if the
    "exp" claim of the token is a number other than zero and earlier than
    the time of validation, [ValidateAuthToken] and
    [ValidatePasswordResetToken] return no account id and an error of the
    token parser; when the token is well formed and its signature is valid
    that error is the claims error, [ErrTokenExpired] first. *)
Theorem validators_reject_expired jwtSecret now t f :
  jwtSecret <> "" ->
  jwt.Claims t !! "exp" = Some (jwt.JNumber f) ->
  float64.is_zero f = false ->
  (f * 1000000000 < inject_Z now)%Q ->
  exists err,
    ValidateAuthToken jwtSecret now (jwt.Compact t) = Returns (0, Some (ErrJWT err))
    /\ ValidatePasswordResetToken jwtSecret now (jwt.Compact t)
       = Returns (0, Some (ErrJWT err))
    /\ (jwt.Method t <> jwt.UnknownMethod ->
        jwt.Verify HMAC (jwt.Method t) (jwt.SigningInput t) (jwt.Signature t)
          (bytes_of jwtSecret) = true ->
        exists rest, err = ErrTokenInvalidClaims (ErrTokenExpired :: rest)).
Proof.
  intros Hsecret Hexp Hnonzero Hbefore.
  destruct (Validate_expired _ _ _ Hexp Hnonzero Hbefore) as [rest Hvalidate].
  destruct (jwt.Parse HMAC (jwt.Compact t) (bytes_of jwtSecret) now) as [claims|err] eqn:Hparse.
  - exfalso. unfold jwt.Parse in Hparse. rewrite Hvalidate in Hparse.
    repeat case_match; discriminate.
  - exists err.
    destruct (validators_return_Parse_error _ _ _ _ Hsecret Hparse) as [-> ->].
    repeat split. intros Hmethod Hsig. exists rest.
    unfold jwt.Parse in Hparse. rewrite Hvalidate, Hsig in Hparse.
    rewrite bool_decide_eq_false_2 in Hparse by assumption. congruence.
Qed.

End Tokens.

(** *** Further properties of the tokens *)

Section TokenProperties.

Variable HMAC : jwt.SigningMethod -> list byte -> string -> list byte.
Variable segments : jwt.SigningMethod -> gmap string jwt.GoValue -> string.
Variable uint_unrepresentable : Q -> Z.

#[local] Arguments strconv.ParseUint : simpl never.
#[local] Arguments strconv.FormatUint : simpl never.

(** X4.  With no secret configured, every one of the four token functions
    returns [ErrJWTSecretNotSet] and nothing else; with a secret, issuing
    always succeeds and no validator returns that error. *)
Theorem secret_not_set jwtSecret iatNow expNow now account token :
  (jwtSecret = "" ->
   GenerateAuthToken HMAC segments jwtSecret iatNow expNow account
   = Returns (jwt.Malformed "", Some ErrJWTSecretNotSet)
   /\ GeneratePasswordResetToken HMAC segments jwtSecret iatNow expNow account
      = Returns (jwt.Malformed "", Some ErrJWTSecretNotSet)
   /\ ValidateAuthToken HMAC uint_unrepresentable jwtSecret now token
      = Returns (0, Some ErrJWTSecretNotSet)
   /\ ValidatePasswordResetToken HMAC jwtSecret now token
      = Returns (0, Some ErrJWTSecretNotSet))
  /\ (jwtSecret <> "" ->
      (exists t, GenerateAuthToken HMAC segments jwtSecret iatNow expNow account
                 = Returns (t, None))
      /\ (exists t, GeneratePasswordResetToken HMAC segments jwtSecret iatNow expNow account
                    = Returns (t, None))
      /\ (forall id, ValidateAuthToken HMAC uint_unrepresentable jwtSecret now token
                     <> Returns (id, Some ErrJWTSecretNotSet))
      /\ (forall id, ValidatePasswordResetToken HMAC jwtSecret now token
                     <> Returns (id, Some ErrJWTSecretNotSet))).
Proof.
  split.
  - intros ->. repeat split.
  - intros Hsecret.
    unfold GenerateAuthToken, GeneratePasswordResetToken, ValidateAuthToken,
      ValidatePasswordResetToken.
    rewrite !bool_decide_eq_false_2 by assumption.
    split; [eauto|]. split; [eauto|].
    split; intros id; repeat case_match; discriminate.
Qed.

(** The claims of a reset token, once decoded. *)
Lemma reset_exp iatNow expNow account :
  (jwt.decoded <$> reset_claims iatNow expNow account) !! "exp"
  = Some (jwt.JNumber (float64.float64_of_int (Unix (expNow + 24 * Hour)))).
Proof. unfold reset_claims. rewrite lookup_fmap. by simplify_map_eq. Qed.

Lemma reset_nbf iatNow expNow account :
  (jwt.decoded <$> reset_claims iatNow expNow account) !! "nbf" = None.
Proof. unfold reset_claims. rewrite lookup_fmap. by simplify_map_eq. Qed.

Lemma reset_sub iatNow expNow account :
  (jwt.decoded <$> reset_claims iatNow expNow account) !! "sub"
  = Some (jwt.JString (strconv.FormatUint (ID account) +:+ ":password-reset")).
Proof. unfold reset_claims. rewrite lookup_fmap. by simplify_map_eq. Qed.

Lemma reset_Validate iatNow expNow now account :
  0 <= expNow < 2 ^ 63 ->
  jwt.Validate (jwt.decoded <$> reset_claims iatNow expNow account) now
  = if now <? expiry expNow then [] else [ErrTokenExpired].
Proof.
  intros Hclock. pose proof (Unix_range expNow Hclock) as Hexp.
  unfold jwt.Validate, jwt.verifyExpiresAt, jwt.verifyNotBefore, jwt.parseNumericDate.
  rewrite reset_exp, reset_nbf.
  rewrite float64.float64_of_int_exact by lia.
  unfold float64.is_zero. simpl Qnum.
  rewrite (proj2 (Z.eqb_neq _ _)) by lia.
  rewrite jwt.newNumericDateFromSeconds_int. fold Second. fold (expiry expNow).
  destruct (now <? expiry expNow); reflexivity.
Qed.

Lemma Parse_reset jwtSecret iatNow expNow now account :
  0 <= expNow < 2 ^ 63 ->
  jwt.Parse HMAC
    (jwt.SignedString HMAC segments jwt.HS256 (reset_claims iatNow expNow account)
       (bytes_of jwtSecret)) (bytes_of jwtSecret) now
  = if now <? expiry expNow
    then inl (jwt.decoded <$> reset_claims iatNow expNow account)
    else inr (ErrTokenInvalidClaims [ErrTokenExpired]).
Proof.
  intros Hclock. rewrite jwt.Parse_SignedString, reset_Validate by assumption.
  destruct (now <? expiry expNow); reflexivity.
Qed.

Lemma Split_reset_subject n :
  strings.Split (strconv.FormatUint n +:+ ":password-reset") ":"
  = [strconv.FormatUint n; "password-reset"].
Proof.
  change (strconv.FormatUint n +:+ ":password-reset")
    with (strconv.FormatUint n +:+ String ":" "password-reset").
  rewrite strings.Split_app by (now apply formatting.FormatUint_free_of).
  reflexivity.
Qed.

(** X5.  A password-reset token validated by the password-reset validator
    with the same secret, before it expires, yields the account id exactly,
    for every id a [uint] can hold: the subject travels as decimal text, so
    nothing is rounded. *)
Theorem ValidatePasswordResetToken_GeneratePasswordResetToken
    jwtSecret iatNow expNow now account :
  jwtSecret <> "" ->
  0 <= ID account < 2 ^ 64 ->
  0 <= expNow < 2 ^ 63 ->
  now < expiry expNow ->
  exists token,
    GeneratePasswordResetToken HMAC segments jwtSecret iatNow expNow account
    = Returns (token, None)
    /\ ValidatePasswordResetToken HMAC jwtSecret now token = Returns (ID account, None).
Proof.
  intros Hsecret Hid Hclock Hnow.
  unfold GeneratePasswordResetToken, ValidatePasswordResetToken.
  rewrite bool_decide_eq_false_2 by assumption.
  eexists. split; [reflexivity|].
  rewrite Parse_reset by assumption.
  rewrite (proj2 (Z.ltb_lt _ _)) by assumption.
  rewrite reset_sub, Split_reset_subject. simpl.
  rewrite formatting.ParseUint_FormatUint by lia. reflexivity.
Qed.

(** X6.  The session validator does not accept a password-reset token:
    before the token expires it returns [ErrInvalidSubjectClaim] and no id
    (the subject is a string, not a number), afterwards the parser's
    error. *)
Theorem ValidateAuthToken_reset_token jwtSecret iatNow expNow now account :
  jwtSecret <> "" ->
  0 <= expNow < 2 ^ 63 ->
  exists token,
    GeneratePasswordResetToken HMAC segments jwtSecret iatNow expNow account
    = Returns (token, None)
    /\ ValidateAuthToken HMAC uint_unrepresentable jwtSecret now token
       = if now <? expiry expNow
         then Returns (0, Some ErrInvalidSubjectClaim)
         else Returns (0, Some (ErrJWT (ErrTokenInvalidClaims [ErrTokenExpired]))).
Proof.
  intros Hsecret Hclock.
  unfold GeneratePasswordResetToken, ValidateAuthToken.
  rewrite bool_decide_eq_false_2 by assumption.
  eexists. split; [reflexivity|].
  rewrite Parse_reset by assumption.
  destruct (now <? expiry expNow); [|reflexivity].
  rewrite reset_sub. reflexivity.
Qed.

(** What a successful parse says of the token. *)
Lemma Parse_inl token key now claims :
  jwt.Parse HMAC token key now = inl claims ->
  exists t,
    token = jwt.Compact t
    /\ claims = jwt.Claims t
    /\ (jwt.Method t = jwt.HS256 \/ jwt.Method t = jwt.HS384 \/ jwt.Method t = jwt.HS512)
    /\ jwt.Signature t = HMAC (jwt.Method t) key (jwt.SigningInput t)
    /\ jwt.Validate (jwt.Claims t) now = [].
Proof.
  destruct token as [text|t]; [discriminate|]. unfold jwt.Parse.
  case_bool_decide as Hknown; [discriminate|].
  destruct (jwt.Verify HMAC (jwt.Method t) (jwt.SigningInput t) (jwt.Signature t) key)
    eqn:Hverify; [|discriminate].
  destruct (jwt.Validate (jwt.Claims t) now) eqn:Hvalid; [|discriminate].
  intros [= <-]. exists t. repeat split; try assumption.
  - unfold jwt.Verify in Hverify. destruct (jwt.Method t); auto; discriminate.
  - unfold jwt.Verify, hmac.Equal in Hverify.
    destruct (jwt.Method t); try discriminate; now apply bool_decide_eq_true in Hverify.
Qed.

(** X7.  No token is trusted without its signature: when either validator
    returns an account id and no error, the secret is configured, the token
    is well formed, its header names one of HS256, HS384 and HS512 (so not
    "none"), and its signature is the MAC of its signing input under the
    secret. *)
Theorem validators_trust_only_verified jwtSecret now token id :
  ValidateAuthToken HMAC uint_unrepresentable jwtSecret now token = Returns (id, None)
  \/ ValidatePasswordResetToken HMAC jwtSecret now token = Returns (id, None) ->
  jwtSecret <> ""
  /\ exists t,
       token = jwt.Compact t
       /\ (jwt.Method t = jwt.HS256 \/ jwt.Method t = jwt.HS384
           \/ jwt.Method t = jwt.HS512)
       /\ jwt.Signature t
          = HMAC (jwt.Method t) (bytes_of jwtSecret) (jwt.SigningInput t).
Proof.
  unfold ValidateAuthToken, ValidatePasswordResetToken.
  case_bool_decide as Hsecret; [intros [[=] | [=]]|].
  intros Hok. split; [assumption|].
  destruct (jwt.Parse HMAC token (bytes_of jwtSecret) now) as [claims|err] eqn:Hparse;
    [|destruct Hok as [[=] | [=]]].
  destruct (Parse_inl _ _ _ _ Hparse) as (t & -> & _ & Hmethod & Hsig & _).
  exists t. auto.
Qed.

(** X9.  Of the claims of a token, the validators read "exp", "nbf" and
    "sub" only: two tokens with valid signatures that agree on these three
    get the same result from each validator, whatever their issuer,
    issued-at time or other claims are. *)
Theorem validators_read_three_claims jwtSecret now t t' :
  jwt.Verify HMAC (jwt.Method t) (jwt.SigningInput t) (jwt.Signature t)
    (bytes_of jwtSecret) = true ->
  jwt.Verify HMAC (jwt.Method t') (jwt.SigningInput t') (jwt.Signature t')
    (bytes_of jwtSecret) = true ->
  jwt.Claims t !! "exp" = jwt.Claims t' !! "exp" ->
  jwt.Claims t !! "nbf" = jwt.Claims t' !! "nbf" ->
  jwt.Claims t !! "sub" = jwt.Claims t' !! "sub" ->
  ValidateAuthToken HMAC uint_unrepresentable jwtSecret now (jwt.Compact t)
  = ValidateAuthToken HMAC uint_unrepresentable jwtSecret now (jwt.Compact t')
  /\ ValidatePasswordResetToken HMAC jwtSecret now (jwt.Compact t)
     = ValidatePasswordResetToken HMAC jwtSecret now (jwt.Compact t').
Proof.
  intros Hsig Hsig' Hexp Hnbf Hsub.
  assert (Hvalid : jwt.Validate (jwt.Claims t) now = jwt.Validate (jwt.Claims t') now).
  { unfold jwt.Validate, jwt.verifyExpiresAt, jwt.verifyNotBefore, jwt.parseNumericDate.
    now rewrite Hexp, Hnbf. }
  assert (Hknown : forall u,
            jwt.Verify HMAC (jwt.Method u) (jwt.SigningInput u) (jwt.Signature u)
              (bytes_of jwtSecret) = true ->
            jwt.Method u <> jwt.UnknownMethod).
  { intros u Hu Hm. rewrite Hm in Hu. discriminate. }
  unfold ValidateAuthToken, ValidatePasswordResetToken.
  case_bool_decide; [split; reflexivity|].
  unfold jwt.Parse.
  rewrite !bool_decide_eq_false_2 by auto.
  rewrite Hsig, Hsig', <- Hvalid.
  destruct (jwt.Validate (jwt.Claims t) now); [|split; reflexivity].
  rewrite <- Hsub. split; reflexivity.
Qed.

(** X8.  The subjects the password-reset validator accepts.  For a token
    that parses, with dates the library represents, and whose subject is a
    string, the validator returns an id and no error exactly when the
    subject is a decimal notation of that id, below [2^64], followed by
    ":password-reset"; leading zeros are read, a sign is not. *)
Theorem ValidatePasswordResetToken_subject jwtSecret now token claims sub id :
  jwtSecret <> "" ->
  jwt.Parse HMAC token (bytes_of jwtSecret) now = inl claims ->
  jwt.dates_representable claims = true ->
  claims !! "sub" = Some (jwt.JString sub) ->
  ValidatePasswordResetToken HMAC jwtSecret now token = Returns (id, None)
  <-> exists digits,
        sub = digits +:+ ":password-reset"
        /\ strconv.decimal digits = Some id /\ id < 2 ^ 64.
Proof.
  intros Hsecret Hparse _ Hsub. unfold ValidatePasswordResetToken.
  rewrite bool_decide_eq_false_2 by assumption. rewrite Hparse, Hsub.
  split.
  - case_bool_decide as Hlen; [discriminate|].
    pose proof (splitting.Join_Split sub ":") as Hjoin.
    destruct (strings.Split sub ":") as [|a [|b [|c rest]]]; try (simpl in Hlen; lia).
    simpl.
    destruct (strconv.ParseUint a 64) as [v [e|]] eqn:Ha; [discriminate|].
    case_bool_decide as Hmarker; [discriminate|].
    intros [= ->]. apply strconv.ParseUint_spec in Ha as [Hdec Hlt]; [|lia].
    exists a. simpl in Hjoin. subst b. auto.
  - intros (digits & -> & Hdec & Hlt).
    change (digits +:+ ":password-reset")
      with (digits +:+ String ":" "password-reset").
    rewrite strings.Split_app by (apply (splitting.decimal_free_of digits id); auto).
    simpl.
    rewrite (proj2 (strconv.ParseUint_spec digits 64 id ltac:(lia))) by auto.
    reflexivity.
Qed.

End TokenProperties.

Section TokenBehaviour.

Variable HMAC : jwt.SigningMethod -> list byte -> string -> list byte.
Variable segments : jwt.SigningMethod -> gmap string jwt.GoValue -> string.
Variable uint_unrepresentable : Q -> Z.

(** The tokens with dates the library represents. *)
Definition token_dates_representable (token : jwt.TokenString) : bool :=
  match token with
  | jwt.Malformed _ => true
  | jwt.Compact t => jwt.dates_representable (jwt.Claims t)
  end.

(** X18.  The session validator always returns.  The password-reset
    validator, on a token with dates the library represents, panics exactly
    when the secret is configured, the token parses, and its subject is
    present and not a string; the message names the type found. *)
Theorem validators_panics jwtSecret now token :
  token_dates_representable token = true ->
  (exists id err,
     ValidateAuthToken HMAC uint_unrepresentable jwtSecret now token = Returns (id, err))
  /\ forall msg,
       ValidatePasswordResetToken HMAC jwtSecret now token = Panics msg
       <-> jwtSecret <> ""
           /\ exists claims subClaim,
                jwt.Parse HMAC token (bytes_of jwtSecret) now = inl claims
                /\ claims !! "sub" = Some subClaim
                /\ (forall sub, subClaim <> jwt.JString sub)
                /\ msg = "interface conversion: interface {} is "
                         +:+ type_name subClaim +:+ ", not string".
Proof.
  intros _. split.
  - unfold ValidateAuthToken. repeat case_match; eauto.
  - intros msg. unfold ValidatePasswordResetToken.
    case_bool_decide as Hsecret.
    { split; [discriminate | intros [? _]; contradiction]. }
    destruct (jwt.Parse HMAC token (bytes_of jwtSecret) now) as [claims|err].
    2:{ split; [discriminate | intros (_ & ? & ? & [=] & _)]. }
    destruct (claims !! "sub") as [subClaim|] eqn:Hsub.
    2:{ split; [discriminate | intros (_ & ? & ? & [= <-] & Hnone & _); congruence]. }
    destruct subClaim as [|b|f|sub| |];
      try (split;
           [ intros [= <-]; split; [assumption|];
             eexists claims, _; split; [reflexivity|]; split; [exact Hsub|];
             split; [intros ?; discriminate | reflexivity]
           | intros (_ & ? & ? & [= <-] & Hsome & _ & ->);
             rewrite Hsub in Hsome; injection Hsome as <-; reflexivity ]).
    split.
    + intros Hpanic. exfalso. revert Hpanic. cbv zeta.
      case_bool_decide; [discriminate|].
      destruct (strconv.ParseUint _ 64) as [accountID [err|]]; [discriminate|].
      case_bool_decide; discriminate.
    + intros (_ & ? & ? & [= <-] & Hsome & Hnot & _).
      rewrite Hsub in Hsome. injection Hsome as <-. now destruct (Hnot sub).
Qed.


(** X20.  The life of a session token.  It is accepted at [now] exactly
    when [now] is before its expiry, which is the issue time cut to the
    second plus 24 hours: more than 24 hours less one second after the clock
    reading, and no more than 24 hours after it.  At the expiry itself the
    token is rejected. *)
Theorem session_token_lifetime jwtSecret iatNow expNow now account :
  jwtSecret <> "" ->
  0 <= ID account <= 2 ^ 53 ->
  0 <= expNow < 2 ^ 63 ->
  (ValidateAuthToken HMAC uint_unrepresentable jwtSecret now
     (jwt.SignedString HMAC segments jwt.HS256 (session_claims iatNow expNow account)
        (bytes_of jwtSecret))
   = if now <? expiry expNow then Returns (ID account, None)
     else Returns (0, Some (ErrJWT (ErrTokenInvalidClaims [ErrTokenExpired]))))
  /\ expNow + 24 * Hour - Second < expiry expNow <= expNow + 24 * Hour.
Proof.
  intros Hsecret Hid Hclock. split.
  - unfold ValidateAuthToken.
    rewrite bool_decide_eq_false_2 by assumption.
    rewrite Parse_session by assumption.
    destruct (now <? expiry expNow); [|reflexivity].
    rewrite session_sub. unfold uint_of_float64.
    rewrite float64.trunc_float64_of_int by assumption.
    change (2 ^ 53) with 9007199254740992 in Hid.
    change (2 ^ 64) with 18446744073709551616.
    rewrite (proj2 (Z.leb_le _ _)), (proj2 (Z.ltb_lt _ _)) by lia.
    reflexivity.
  - unfold expiry, Unix, Hour, Second.
    pose proof (Z.mul_div_le (expNow + 24 * (3600 * 1000000000)) 1000000000).
    pose proof (Z.mul_succ_div_gt (expNow + 24 * (3600 * 1000000000)) 1000000000).
    lia.
Qed.

End TokenBehaviour.

(** *** Instances and counterexamples for the tokens *)

(** Stand-ins for the MAC, the serialiser and the platform, to evaluate
    statements on. *)
Definition toy_HMAC (method : jwt.SigningMethod) (key : list byte) (text : string)
  : list byte :=
  (key ++ bytes_of text)%list.

Definition toy_segments (method : jwt.SigningMethod) (claims : gmap string jwt.GoValue)
  : string :=
  "eyJhbGciOiJIUzI1NiIsInR5cCI6IkpXVCJ9.e30".

Definition toy_unrepresentable (f : Q) : Z := 2 ^ 63.

Definition test_account : Account :=
  {| ID := 123; Email := "test@example.com"; Password := "" |}.

Definition test_secret : string := "test_secret_key_for_jwt_validation".

(** 31 October 2025, 00:00 UTC, and one hour later. *)
Definition issued_at : Z := 1761868800 * Second.
Definition one_hour_later : Z := issued_at + Hour.

(** The account whose id is [2^53 + 1], the first integer a float64 does
    not hold: its session token is validated as [2^53]. *)
Definition unlucky_account : Account :=
  {| ID := 9007199254740993; Email := "unlucky@example.com"; Password := "" |}.

Lemma ValidateAuthToken_GenerateAuthToken_witness :
  exists token,
    GenerateAuthToken toy_HMAC toy_segments test_secret issued_at issued_at
      unlucky_account = Returns (token, None)
    /\ ValidateAuthToken toy_HMAC toy_unrepresentable test_secret one_hour_later token
       = Returns (9007199254740992, None).
Proof.
  destruct (ValidateAuthToken_GenerateAuthToken toy_HMAC toy_segments
              toy_unrepresentable test_secret issued_at issued_at one_hour_later
              unlucky_account)
    as (token & Htoken & _ & Hrounded).
  - discriminate.
  - vm_compute. split; [discriminate | reflexivity].
  - vm_compute. split; [discriminate | reflexivity].
  - reflexivity.
  - exists token. split; [exact Htoken|].
    destruct Hrounded as [-> _]; [reflexivity | reflexivity].
Defined.

(** The ids of the test account and of the largest float64 below [2^64]
    come back as they are. *)
Example ValidateAuthToken_exact_ids :
  ValidateAuthToken toy_HMAC toy_unrepresentable test_secret one_hour_later
    (jwt.SignedString toy_HMAC toy_segments jwt.HS256
       (session_claims issued_at issued_at test_account) (bytes_of test_secret))
  = Returns (123, None)
  /\ ValidateAuthToken toy_HMAC toy_unrepresentable test_secret one_hour_later
       (jwt.SignedString toy_HMAC toy_segments jwt.HS256
          (session_claims issued_at issued_at
             {| ID := 2 ^ 64 - 2048; Email := ""; Password := "" |})
          (bytes_of test_secret))
     = Returns (18446744073709549568, None).
Proof. vm_compute. split; reflexivity. Qed.

Lemma ValidatePasswordResetToken_session_token_witness :
  exists token,
    GenerateAuthToken toy_HMAC toy_segments test_secret issued_at issued_at test_account
    = Returns (token, None)
    /\ ValidatePasswordResetToken toy_HMAC test_secret one_hour_later token
       = Panics "interface conversion: interface {} is float64, not string".
Proof.
  apply (ValidatePasswordResetToken_session_token toy_HMAC toy_segments
           test_secret issued_at issued_at one_hour_later test_account).
  - discriminate.
  - vm_compute. split; [discriminate | reflexivity].
Defined.

(** A token that expired a day before it is validated. *)
Definition stale_token : jwt.Token :=
  {| jwt.SigningInput := "eyJhbGciOiJIUzI1NiIsInR5cCI6IkpXVCJ9.e30";
     jwt.Method := jwt.HS256;
     jwt.Claims := {[ "sub" := jwt.JNumber 123;
                      "exp" := jwt.JNumber (inject_Z (Unix issued_at - 86400)) ]};
     jwt.Signature := toy_HMAC jwt.HS256 (bytes_of test_secret)
                        "eyJhbGciOiJIUzI1NiIsInR5cCI6IkpXVCJ9.e30" |}.

Lemma validators_reject_expired_witness :
  ValidateAuthToken toy_HMAC toy_unrepresentable test_secret issued_at
    (jwt.Compact stale_token)
  = Returns (0, Some (ErrJWT (ErrTokenInvalidClaims [ErrTokenExpired])))
  /\ ValidatePasswordResetToken toy_HMAC test_secret issued_at (jwt.Compact stale_token)
     = Returns (0, Some (ErrJWT (ErrTokenInvalidClaims [ErrTokenExpired]))).
Proof.
  destruct (validators_reject_expired toy_HMAC toy_unrepresentable test_secret issued_at
              stale_token (inject_Z (Unix issued_at - 86400)))
    as (err & Hauth & Hreset & Hwhy).
  - discriminate.
  - reflexivity.
  - reflexivity.
  - reflexivity.
  - rewrite Hauth, Hreset.
    destruct Hwhy as (rest & ->); [discriminate | reflexivity |].
    assert (Hrest : rest = []).
    { assert (H : ValidateAuthToken toy_HMAC toy_unrepresentable test_secret issued_at
                    (jwt.Compact stale_token)
                  = Returns (0, Some (ErrJWT (ErrTokenInvalidClaims [ErrTokenExpired]))))
        by (vm_compute; reflexivity).
      rewrite Hauth in H. congruence. }
    rewrite Hrest. split; reflexivity.
Defined.

(** C5 as stated fails for the expiry timestamp zero, the first second of
    1970: the parser takes a zero "exp" for an absent one, and a token that
    carries it, signed with the secret, is accepted at every later time by
    the validator of its purpose. *)
Lemma validators_accept_zero_exp :
  exists session reset : gmap string jwt.GoValue,
    session !! "exp" = Some (jwt.GoInt64 0)
    /\ reset !! "exp" = Some (jwt.GoInt64 0)
    /\ forall HMAC segments unrepresentable jwtSecret now,
         jwtSecret <> "" -> 0 < now ->
         (0 * 1000000000 < inject_Z now)%Q
         /\ ValidateAuthToken HMAC unrepresentable jwtSecret now
              (jwt.SignedString HMAC segments jwt.HS256 session (bytes_of jwtSecret))
            = Returns (7, None)
         /\ ValidatePasswordResetToken HMAC jwtSecret now
              (jwt.SignedString HMAC segments jwt.HS256 reset (bytes_of jwtSecret))
            = Returns (7, None).
Proof.
  exists {[ "sub" := jwt.GoUint 7; "exp" := jwt.GoInt64 0 ]},
         {[ "sub" := jwt.GoString "7:password-reset"; "exp" := jwt.GoInt64 0 ]}.
  split; [reflexivity|]. split; [reflexivity|].
  intros HMAC segments unrepresentable jwtSecret now Hsecret Hnow.
  split; [unfold Qlt; simpl; lia|].
  unfold ValidateAuthToken, ValidatePasswordResetToken.
  rewrite bool_decide_eq_false_2 by assumption.
  rewrite !jwt.Parse_SignedString. split; reflexivity.
Qed.

(** *** Instances for the further token properties *)

Definition largest_account : Account :=
  {| ID := 2 ^ 64 - 1; Email := "last@example.com"; Password := "" |}.

Lemma ValidatePasswordResetToken_GeneratePasswordResetToken_witness :
  exists token,
    GeneratePasswordResetToken toy_HMAC toy_segments test_secret issued_at issued_at
      largest_account = Returns (token, None)
    /\ ValidatePasswordResetToken toy_HMAC test_secret one_hour_later token
       = Returns (18446744073709551615, None).
Proof.
  apply (ValidatePasswordResetToken_GeneratePasswordResetToken toy_HMAC toy_segments
           test_secret issued_at issued_at one_hour_later largest_account).
  - discriminate.
  - vm_compute. split; [discriminate | reflexivity].
  - vm_compute. split; [discriminate | reflexivity].
  - reflexivity.
Defined.

Lemma ValidateAuthToken_reset_token_witness :
  exists token,
    GeneratePasswordResetToken toy_HMAC toy_segments test_secret issued_at issued_at
      test_account = Returns (token, None)
    /\ ValidateAuthToken toy_HMAC toy_unrepresentable test_secret one_hour_later token
       = Returns (0, Some ErrInvalidSubjectClaim).
Proof.
  apply (ValidateAuthToken_reset_token toy_HMAC toy_segments toy_unrepresentable
           test_secret issued_at issued_at one_hour_later test_account).
  - discriminate.
  - vm_compute. split; [discriminate | reflexivity].
Defined.

(** The session token of the test account, as issued and as validated. *)
Definition test_token : jwt.TokenString :=
  jwt.SignedString toy_HMAC toy_segments jwt.HS256
    (session_claims issued_at issued_at test_account) (bytes_of test_secret).

Lemma test_token_accepted :
  ValidateAuthToken toy_HMAC toy_unrepresentable test_secret one_hour_later test_token
  = Returns (123, None).
Proof. vm_compute. reflexivity. Qed.

Lemma validators_trust_only_verified_witness :
  test_secret <> ""
  /\ exists t,
       test_token = jwt.Compact t
       /\ (jwt.Method t = jwt.HS256 \/ jwt.Method t = jwt.HS384
           \/ jwt.Method t = jwt.HS512)
       /\ jwt.Signature t
          = toy_HMAC (jwt.Method t) (bytes_of test_secret) (jwt.SigningInput t).
Proof.
  apply (validators_trust_only_verified toy_HMAC toy_unrepresentable test_secret
           one_hour_later test_token 123).
  left. exact test_token_accepted.
Defined.

(** A reset token whose subject has leading zeros. *)
Definition padded_reset_token : jwt.Token :=
  {| jwt.SigningInput := "eyJhbGciOiJIUzI1NiIsInR5cCI6IkpXVCJ9.e30";
     jwt.Method := jwt.HS256;
     jwt.Claims := {[ "sub" := jwt.JString "007:password-reset" ]};
     jwt.Signature := toy_HMAC jwt.HS256 (bytes_of test_secret)
                        "eyJhbGciOiJIUzI1NiIsInR5cCI6IkpXVCJ9.e30" |}.

Lemma ValidatePasswordResetToken_subject_witness :
  ValidatePasswordResetToken toy_HMAC test_secret issued_at (jwt.Compact padded_reset_token)
  = Returns (7, None).
Proof.
  apply (ValidatePasswordResetToken_subject toy_HMAC test_secret issued_at
           (jwt.Compact padded_reset_token) (jwt.Claims padded_reset_token)
           "007:password-reset" 7).
  - discriminate.
  - vm_compute. reflexivity.
  - vm_compute. reflexivity.
  - reflexivity.
  - exists "007". split; [reflexivity|]. split; reflexivity.
Defined.

(** The stale token, and the same with another issuer and an issued-at
    time. *)
Definition stale_token_other_issuer : jwt.Token :=
  {| jwt.SigningInput := "eyJhbGciOiJIUzUxMiIsInR5cCI6IkpXVCJ9.e30";
     jwt.Method := jwt.HS512;
     jwt.Claims := {[ "sub" := jwt.JNumber 123;
                      "iss" := jwt.JString "someone else";
                      "iat" := jwt.JNumber 1;
                      "exp" := jwt.JNumber (inject_Z (Unix issued_at - 86400)) ]};
     jwt.Signature := toy_HMAC jwt.HS512 (bytes_of test_secret)
                        "eyJhbGciOiJIUzUxMiIsInR5cCI6IkpXVCJ9.e30" |}.

Lemma validators_read_three_claims_witness :
  ValidateAuthToken toy_HMAC toy_unrepresentable test_secret issued_at
    (jwt.Compact stale_token)
  = ValidateAuthToken toy_HMAC toy_unrepresentable test_secret issued_at
      (jwt.Compact stale_token_other_issuer)
  /\ ValidatePasswordResetToken toy_HMAC test_secret issued_at (jwt.Compact stale_token)
     = ValidatePasswordResetToken toy_HMAC test_secret issued_at
         (jwt.Compact stale_token_other_issuer).
Proof.
  apply (validators_read_three_claims toy_HMAC toy_unrepresentable test_secret issued_at
           stale_token stale_token_other_issuer).
  - vm_compute. reflexivity.
  - vm_compute. reflexivity.
  - vm_compute. reflexivity.
  - vm_compute. reflexivity.
  - vm_compute. reflexivity.
Defined.


(** The test token at the instant it expires. *)
Lemma session_token_lifetime_witness :
  (ValidateAuthToken toy_HMAC toy_unrepresentable test_secret (issued_at + 24 * Hour)
     test_token
   = if issued_at + 24 * Hour <? expiry issued_at
     then Returns (ID test_account, None)
     else Returns (0, Some (ErrJWT (ErrTokenInvalidClaims [ErrTokenExpired]))))
  /\ issued_at + 24 * Hour - Second < expiry issued_at <= issued_at + 24 * Hour.
Proof.
  apply (session_token_lifetime toy_HMAC toy_segments toy_unrepresentable
           test_secret issued_at issued_at (issued_at + 24 * Hour) test_account).
  - discriminate.
  - vm_compute. split; discriminate.
  - vm_compute. split; [discriminate | reflexivity].
Defined.

Example session_token_at_expiry :
  ValidateAuthToken toy_HMAC toy_unrepresentable test_secret (issued_at + 24 * Hour)
    test_token
  = Returns (0, Some (ErrJWT (ErrTokenInvalidClaims [ErrTokenExpired]))).
Proof. vm_compute. reflexivity. Qed.

(** The reset validator on the test token, a session token. *)
Lemma validators_panics_witness :
  ValidatePasswordResetToken toy_HMAC test_secret one_hour_later test_token
  = Panics "interface conversion: interface {} is float64, not string".
Proof.
  apply (proj2 (validators_panics toy_HMAC toy_unrepresentable test_secret
                  one_hour_later test_token ltac:(vm_compute; reflexivity))).
  split; [discriminate|].
  eexists _, (jwt.JNumber 123). split; [vm_compute; reflexivity|].
  split; [vm_compute; reflexivity|].
  split; [intros sub; discriminate | reflexivity].
Defined.

(** ** Package account: the authentication middleware (middlewares.go) *)

(** The calls a handler makes on its [gin.Context], in order. *)
Inductive ContextCall :=
| JSON (status : Z) (body : list (string * string))
| Abort
| SetUint (key : string) (value : Z)
| Next.

Definition StatusUnauthorized : Z := 401.

Section Middleware.

Variable HMAC : jwt.SigningMethod -> list byte -> string -> list byte.
Variable uint_unrepresentable : Q -> Z.

(** [utils.AccountIdContextKey], a constant of pkg/utils. *)
Variable AccountIdContextKey : string.

(** The header value that is the empty string. *)
Definition empty_header (token : jwt.TokenString) : bool :=
  match token with
  | jwt.Malformed EmptyString => true
  | _ => false
  end.

(** The handler [AuthMiddleware(accountService)] returns; [token] is the
    value of the "Authorization" header, "" when there is none. *)
Definition AuthMiddleware (jwtSecret : string) (now : Z) (token : jwt.TokenString)
  : outcome (list ContextCall) :=
  if empty_header token then
    Returns [JSON StatusUnauthorized [("error", "Unauthorized")]; Abort]
  else
    '(accountID, err) ← ValidateAuthToken HMAC uint_unrepresentable jwtSecret now token;
    match err with
    | Some _ => Returns [JSON StatusUnauthorized [("error", "Unauthorized")]; Abort]
    | None => Returns [SetUint AccountIdContextKey accountID; Next]
    end.

Lemma ValidateAuthToken_returns jwtSecret now token :
  exists id err,
    ValidateAuthToken HMAC uint_unrepresentable jwtSecret now token = Returns (id, err).
Proof.
  unfold ValidateAuthToken. repeat case_match; eauto.
Qed.

Lemma ValidateAuthToken_empty_header jwtSecret now id :
  ValidateAuthToken HMAC uint_unrepresentable jwtSecret now (jwt.Malformed "")
  <> Returns (id, None).
Proof.
  unfold ValidateAuthToken. case_bool_decide; discriminate.
Qed.

(** X15.  The middleware never panics and makes one of two sequences of
    calls: it stores an account id and calls the next handler exactly when
    the session validator returns that id with no error; in every other
    case, the missing header included, it answers 401 and aborts. *)
Theorem AuthMiddleware_admits jwtSecret now token :
  (forall id,
     AuthMiddleware jwtSecret now token = Returns [SetUint AccountIdContextKey id; Next]
     <-> ValidateAuthToken HMAC uint_unrepresentable jwtSecret now token
         = Returns (id, None))
  /\ ((forall id, ValidateAuthToken HMAC uint_unrepresentable jwtSecret now token
                  <> Returns (id, None))
      <-> AuthMiddleware jwtSecret now token
          = Returns [JSON StatusUnauthorized [("error", "Unauthorized")]; Abort]).
Proof.
  unfold AuthMiddleware.
  destruct (empty_header token) eqn:Hempty.
  - destruct token as [[|c text]|t]; try discriminate.
    split.
    + intros id. split; [discriminate|].
      intros H. now apply ValidateAuthToken_empty_header in H.
    + split; [reflexivity|]. intros _ id. apply ValidateAuthToken_empty_header.
  - destruct (ValidateAuthToken_returns jwtSecret now token) as (id0 & err & ->).
    simpl. destruct err as [e|]; split.
    + intros id. split; discriminate.
    + split; [reflexivity | discriminate].
    + intros id. split; [intros [= ->]; reflexivity | intros [= ->]; reflexivity].
    + split; [|discriminate]. intros H. now destruct (H id0).
Qed.

(** X16.  A password-reset token does not open a session: presented as
    the "Authorization" header it is answered 401, at every time, before
    and after it expires. *)
Theorem AuthMiddleware_rejects_reset_token segments jwtSecret iatNow expNow now account :
  jwtSecret <> "" ->
  0 <= expNow < 2 ^ 63 ->
  exists token,
    GeneratePasswordResetToken HMAC segments jwtSecret iatNow expNow account
    = Returns (token, None)
    /\ AuthMiddleware jwtSecret now token
       = Returns [JSON StatusUnauthorized [("error", "Unauthorized")]; Abort].
Proof.
  intros Hsecret Hclock.
  unfold GeneratePasswordResetToken.
  rewrite bool_decide_eq_false_2 by assumption.
  eexists. split; [reflexivity|].
  unfold AuthMiddleware, ValidateAuthToken.
  change (empty_header (jwt.SignedString _ _ _ _ _)) with false. cbv iota.
  rewrite bool_decide_eq_false_2 by assumption.
  rewrite Parse_reset by assumption.
  destruct (now <? expiry expNow); [rewrite reset_sub|]; reflexivity.
Qed.

End Middleware.

Lemma AuthMiddleware_rejects_reset_token_witness :
  exists token,
    GeneratePasswordResetToken toy_HMAC toy_segments test_secret issued_at issued_at
      test_account = Returns (token, None)
    /\ AuthMiddleware toy_HMAC toy_unrepresentable "accountId" test_secret one_hour_later token
       = Returns [JSON StatusUnauthorized [("error", "Unauthorized")]; Abort].
Proof.
  apply (AuthMiddleware_rejects_reset_token toy_HMAC toy_unrepresentable "accountId"
           toy_segments test_secret issued_at issued_at one_hour_later test_account).
  - discriminate.
  - vm_compute. split; [discriminate | reflexivity].
Defined.

Example AuthMiddleware_session_token :
  AuthMiddleware toy_HMAC toy_unrepresentable "accountId" test_secret one_hour_later test_token
  = Returns [SetUint "accountId" 123; Next].
Proof. vm_compute. reflexivity. Qed.

End account.

(** ** Package utils: the secret encryptor (pkg/utils) *)
Module utils.

(** [Encryptor]: the key it was made with. *)
Record Encryptor := { key : list byte }.

(** [aes.NewCipher] takes keys of 16, 24 or 32 bytes. *)
Definition valid_key_size (k : list byte) : bool :=
  bool_decide (length k = 16%nat) || bool_decide (length k = 24%nat)
  || bool_decide (length k = 32%nat).

(** The nonce and tag sizes of [cipher.NewGCM]. *)
Definition NonceSize : nat := 12.
Definition TagSize : nat := 16.

(** [NewEncryptor(key)]. *)
Definition NewEncryptor (k : list byte) : option Encryptor * option error :=
  if negb (valid_key_size k) then (None, Some (ErrEncryptor InvalidKeySize))
  else (Some {| key := k |}, None).

Section AESGCM.

(** AES-GCM with no additional data, under a key of valid size and a nonce
    of 12 bytes: [seal] is the ciphertext followed by its tag, [open] the
    plaintext of a ciphertext whose tag verifies.  (A message is taken to be
    within the length bound of GCM.) *)
Variable seal : list byte -> list byte -> list byte -> list byte.
Variable open : list byte -> list byte -> list byte -> option (list byte).

(** [gcm.Seal(dst, nonce, plaintext, nil)] appends to [dst]. *)
Definition Seal (k dst nonce plaintext : list byte) : outcome (list byte) :=
  if bool_decide (length nonce ≠ NonceSize) then
    Panics "crypto/cipher: incorrect nonce length given to GCM"
  else Returns (dst ++ seal k nonce plaintext)%list.

(** [gcm.Open(nil, nonce, ciphertext, nil)]. *)
Definition Open (k nonce ciphertext : list byte) : outcome (option (list byte)) :=
  if bool_decide (length nonce ≠ NonceSize) then
    Panics "crypto/cipher: incorrect nonce length given to GCM"
  else Returns (open k nonce ciphertext).

(** [e.Encrypt(plaintext)]; [rand] is crypto/rand's reader. *)
Definition Encrypt (e : Encryptor) (rand : Reader) (plaintext : string)
  : outcome (string * option error) :=
  if negb (valid_key_size (key e)) then
    Returns ("", Some (ErrEncryptor FailedToCreateCipher))
  else
    match Read rand NonceSize with
    | None => Returns ("", Some (ErrEncryptor FailedToGenerateNonce))
    | Some nonce =>
        let plaintextBytes := bytes_of plaintext in
        ciphertext ← Seal (key e) nonce nonce plaintextBytes;
        Returns (base64.EncodeToString base64.StdEncoding ciphertext, None)
    end.

(** [e.Decrypt(ciphertext)]. *)
Definition Decrypt (e : Encryptor) (ciphertext : string)
  : outcome (string * option error) :=
  match base64.DecodeString base64.StdEncoding ciphertext with
  | None => Returns ("", Some (ErrEncryptor FailedToDecodeBase64))
  | Some ciphertextBytes =>
      if negb (valid_key_size (key e)) then
        Returns ("", Some (ErrEncryptor FailedToCreateCipher))
      else
        let nonceSize := NonceSize in
        if bool_decide (length ciphertextBytes < nonceSize)%nat then
          Returns ("", Some (ErrEncryptor CiphertextTooShort))
        else
          let nonce := take nonceSize ciphertextBytes in
          let ciphertextOnly := drop nonceSize ciphertextBytes in
          opened ← Open (key e) nonce ciphertextOnly;
          match opened with
          | None => Returns ("", Some (ErrEncryptor FailedToDecryptOrAuthenticate))
          | Some plaintextBytes => Returns (string_of plaintextBytes, None)
          end
  end.

(** *** The encryptor's properties *)

#[local] Arguments base64.DecodeString : simpl never.
#[local] Arguments base64.EncodeToString : simpl never.

(** What the package promises: opening what was sealed under the same key
    and nonce gives the plaintext back, and a tag has 16 bytes. *)
Definition opens_what_it_sealed : Prop :=
  forall k nonce plaintext,
    valid_key_size k = true -> length nonce = NonceSize ->
    open k nonce (seal k nonce plaintext) = Some plaintext.





(** The nonce [Encrypt] draws from a source, and the bytes it encodes. *)
Definition nonce_of (src : nat -> byte) : list byte := map src (seq 0 NonceSize).

Definition sealed_bytes (e : Encryptor) (src : nat -> byte) (plaintext : string)
  : list byte :=
  (nonce_of src ++ seal (key e) (nonce_of src) (bytes_of plaintext))%list.

Lemma nonce_of_length src : length (nonce_of src) = NonceSize.
Proof. unfold nonce_of. now rewrite length_map, length_seq. Qed.

Lemma Encrypt_Source e src plaintext :
  valid_key_size (key e) = true ->
  Encrypt e (Source src) plaintext
  = Returns (base64.EncodeToString base64.StdEncoding (sealed_bytes e src plaintext), None).
Proof.
  intros Hkey. unfold Encrypt, Seal. rewrite Hkey.
  cbn [negb Read mbind outcome_bind]. fold (nonce_of src).
  rewrite bool_decide_eq_false_2 by (rewrite nonce_of_length; auto).
  reflexivity.
Qed.

(** [Decrypt] on a text that decodes to a nonce followed by [ciphertext]. *)
Lemma Decrypt_decoded e text nonce ciphertext :
  valid_key_size (key e) = true -> length nonce = NonceSize ->
  base64.DecodeString base64.StdEncoding text = Some (nonce ++ ciphertext)%list ->
  Decrypt e text
  = match open (key e) nonce ciphertext with
    | None => Returns ("", Some (ErrEncryptor FailedToDecryptOrAuthenticate))
    | Some plaintextBytes => Returns (string_of plaintextBytes, None)
    end.
Proof.
  intros Hkey Hnonce Hdecode. unfold Decrypt, Open. rewrite Hdecode, Hkey. simpl.
  rewrite bool_decide_eq_false_2 by (rewrite length_app; lia).
  rewrite take_app_length' by (symmetry; exact Hnonce).
  rewrite drop_app_length' by (symmetry; exact Hnonce).
  rewrite bool_decide_eq_false_2 by auto.
  reflexivity.
Qed.

(** C4.  For every key of 16, 24 or 32 bytes and every plaintext, the empty
    one included, [Decrypt] of what [Encrypt] returned, under the same key,
    is the plaintext, with no error, whichever nonce was drawn; and two
    calls of [Encrypt] on the same plaintext that draw different nonces
    return different strings. *)
Theorem Decrypt_Encrypt k src src' plaintext :
  opens_what_it_sealed ->
  length k = 16%nat \/ length k = 24%nat \/ length k = 32%nat ->
  exists e sealed sealed',
    NewEncryptor k = (Some e, None)
    /\ Encrypt e (Source src) plaintext = Returns (sealed, None)
    /\ Encrypt e (Source src') plaintext = Returns (sealed', None)
    /\ Decrypt e sealed = Returns (plaintext, None)
    /\ (nonce_of src <> nonce_of src' -> sealed <> sealed').
Proof.
  intros Hopen Hlen.
  assert (Hkey : valid_key_size k = true).
  { unfold valid_key_size.
    destruct Hlen as [-> | [-> | ->]]; reflexivity. }
  exists {| key := k |}. do 2 eexists.
  split; [unfold NewEncryptor; now rewrite Hkey|].
  rewrite !Encrypt_Source by assumption.
  split; [reflexivity|]. split; [reflexivity|]. split.
  - rewrite (Decrypt_decoded _ _ (nonce_of src)
               (seal k (nonce_of src) (bytes_of plaintext)));
      [|assumption | apply nonce_of_length
       |apply base64.DecodeString_EncodeToString, base64.standard_Std].
    simpl. rewrite Hopen by (assumption || apply nonce_of_length).
    unfold string_of, bytes_of. now rewrite string_of_list_byte_of_string.
  - intros Hnonces Heq.
    apply base64.EncodeToString_inj in Heq; [|apply base64.standard_Std].
    apply Hnonces. unfold sealed_bytes in Heq.
    apply (f_equal (take NonceSize)) in Heq.
    now rewrite !take_app_length' in Heq by (symmetry; apply nonce_of_length).
Qed.






End AESGCM.

(** *** Instances and counterexamples for the encryptor *)

(** A stand-in for AES-GCM of the right shape: the plaintext followed by 16
    bytes made of the key and the nonce, which [toy_open] compares. *)
Definition toy_tag (k nonce : list byte) : list byte :=
  resize TagSize x00 (nonce ++ k)%list.

Definition toy_seal (k nonce plaintext : list byte) : list byte :=
  (plaintext ++ toy_tag k nonce)%list.

Definition toy_open (k nonce ciphertext : list byte) : option (list byte) :=
  let n := (length ciphertext - TagSize)%nat in
  if bool_decide (length ciphertext < TagSize)%nat then None
  else if bool_decide (drop n ciphertext = toy_tag k nonce) then Some (take n ciphertext)
  else None.

Lemma toy_opens_what_it_sealed : opens_what_it_sealed toy_seal toy_open.
Proof.
  intros k nonce plaintext _ _. unfold toy_open, toy_seal.
  assert (Htag : length (toy_tag k nonce) = TagSize) by apply length_resize.
  rewrite length_app, Htag.
  rewrite bool_decide_eq_false_2 by lia.
  replace (length plaintext + TagSize - TagSize)%nat with (length plaintext) by lia.
  rewrite drop_app_length, take_app_length.
  now rewrite bool_decide_eq_true_2.
Qed.


Definition test_key : list byte := bytes_of "myverystrongpasswordo32bitlength".

Definition counting : nat -> byte := fun i => default x00 (Byte.of_nat i).

Lemma Decrypt_Encrypt_witness :
  exists e sealed,
    NewEncryptor test_key = (Some e, None)
    /\ Encrypt toy_seal e (Source account.zeros) "Hello, World!" = Returns (sealed, None)
    /\ Decrypt toy_open e sealed = Returns ("Hello, World!", None).
Proof.
  destruct (Decrypt_Encrypt toy_seal toy_open test_key account.zeros counting "Hello, World!")
    as (e & sealed & sealed' & Hnew & Hseal & _ & Hopen & _).
  - exact toy_opens_what_it_sealed.
  - right. right. reflexivity.
  - exists e, sealed. auto.
Defined.
















Example Decrypt_changed_text_toy :
  Encrypt toy_seal {| key := test_key |} (Source account.zeros) "a"
  = Returns ("AAAAAAAAAAAAAAAAYQAAAAAAAAAAAAAAAG15dmU=", None)
  /\ Decrypt toy_open {| key := test_key |} "AAAAAAAAAAAAAAAAYQAAAAAAAAAAAAAAAG15dmU="
     = Returns ("a", None)
  /\ Decrypt toy_open {| key := test_key |} "AAAAAAAAAAAAAAAAYQAAAAAAAAAAAAAAAG15dmV="
     = Returns ("a", None)
  /\ Decrypt toy_open {| key := test_key |} "AAAAAAAAAAAAAAAAYQAAAAAAAAAAAAAAAG15dm$="
     = Returns ("", Some (ErrEncryptor FailedToDecodeBase64))
  /\ Decrypt toy_open {| key := test_key |} "AAAAAAAAAAAAAAAAYQAAAAAAAAAAAAAAAG16dmU="
     = Returns ("", Some (ErrEncryptor FailedToDecryptOrAuthenticate)).
Proof. vm_compute. repeat split. Qed.


(** *** Further properties of the encryptor *)

(** X10.  [NewEncryptor] makes an encryptor exactly of the keys of 16, 24
    or 32 bytes, and the encryptor holds that key; for a key of any other
    length it returns no encryptor and the key-size error. *)
Theorem NewEncryptor_key_sizes k :
  (forall e, NewEncryptor k = (Some e, None)
             <-> (length k = 16%nat \/ length k = 24%nat \/ length k = 32%nat)
                 /\ e = {| key := k |})
  /\ (~ (length k = 16%nat \/ length k = 24%nat \/ length k = 32%nat)
      <-> NewEncryptor k = (None, Some (ErrEncryptor InvalidKeySize))).
Proof.
  unfold NewEncryptor, valid_key_size.
  repeat case_bool_decide; simpl; split; try intros e; split;
    first [ intros [= <-]; split; [tauto | reflexivity]
          | intros [_ ->]; reflexivity
          | discriminate
          | intros [? _]; lia
          | intros ?; reflexivity
          | intros _; lia
          | intros ?; exfalso; tauto
          | idtac ].
Qed.

Section EncryptorProperties.

Variable seal : list byte -> list byte -> list byte -> list byte.
Variable open : list byte -> list byte -> list byte -> option (list byte).

Lemma bytes_of_length s : length (bytes_of s) = String.length s.
Proof.
  unfold bytes_of, list_byte_of_string.
  rewrite length_map. induction s as [|c s IH]; simpl; [reflexivity | now rewrite IH].
Qed.


#[local] Arguments base64.DecodeString : simpl never.
#[local] Arguments base64.EncodeToString : simpl never.


(** X12.  [Encrypt] never panics; it returns an error in two cases only,
    a key of invalid size and a failing entropy source, and the string it
    returns with an error is empty. *)
Theorem Encrypt_outcomes e rand plaintext :
  (forall msg, Encrypt seal e rand plaintext <> Panics msg)
  /\ (forall s err,
        Encrypt seal e rand plaintext = Returns (s, Some err) ->
        s = ""
        /\ (err = ErrEncryptor FailedToCreateCipher /\ valid_key_size (key e) = false
            \/ err = ErrEncryptor FailedToGenerateNonce /\ rand = Broken))
  /\ (valid_key_size (key e) = false ->
      Encrypt seal e rand plaintext
      = Returns ("", Some (ErrEncryptor FailedToCreateCipher)))
  /\ (valid_key_size (key e) = true ->
      Encrypt seal e Broken plaintext
      = Returns ("", Some (ErrEncryptor FailedToGenerateNonce))).
Proof.
  unfold Encrypt.
  destruct (valid_key_size (key e)) eqn:Hkey; simpl.
  - destruct rand as [src|]; simpl.
    + unfold Seal. simpl.
      split; [discriminate|]. split; [discriminate|]. split; [discriminate|].
      reflexivity.
    + split; [discriminate|]. split; [|split; [discriminate | reflexivity]].
      intros s err [= <- <-]. split; [reflexivity|]. right. split; reflexivity.
  - split; [discriminate|]. split; [|split; [reflexivity | discriminate]].
    intros s err [= <- <-]. split; [reflexivity|]. left. split; reflexivity.
Qed.

(** X13.  [Decrypt] never panics, and it returns a plaintext only from an
    authenticated ciphertext: when it returns no error, the key has a valid
    size, the input decodes to at least 12 bytes, the AEAD opened what
    follows the first 12 bytes under them as nonce, and the result is the
    plaintext it gave. *)
Theorem Decrypt_authenticated e text :
  (forall msg, Decrypt open e text <> Panics msg)
  /\ (forall s,
        Decrypt open e text = Returns (s, None) ->
        valid_key_size (key e) = true
        /\ exists decoded plaintextBytes,
             base64.DecodeString base64.StdEncoding text = Some decoded
             /\ (NonceSize <= length decoded)%nat
             /\ open (key e) (take NonceSize decoded) (drop NonceSize decoded)
                = Some plaintextBytes
             /\ s = string_of plaintextBytes).
Proof.
  unfold Decrypt, Open.
  destruct (base64.DecodeString base64.StdEncoding text) as [decoded|];
    [|split; [discriminate | intros s [=]]].
  destruct (valid_key_size (key e)); simpl; [|split; [discriminate | intros s [=]]].
  case_bool_decide as Hshort; [split; [discriminate | intros s [=]]|].
  case_bool_decide as Hnonce.
  { exfalso. apply Hnonce. rewrite length_take. unfold NonceSize in *. lia. }
  simpl.
  destruct (open (key e) (take NonceSize decoded) (drop NonceSize decoded))
    as [plaintextBytes|] eqn:Hopen; (split; [discriminate|]); intros s [=].
  split; [reflexivity|]. exists decoded, plaintextBytes.
  repeat split; auto. lia.
Qed.

Lemma strip_newlines_app s1 s2 :
  base64.strip_newlines (s1 +:+ s2)
  = base64.strip_newlines s1 +:+ base64.strip_newlines s2.
Proof.
  induction s1 as [|c s1 IH]; simpl; [reflexivity|].
  destruct (base64.is_newline c); simpl; now rewrite IH.
Qed.

(** X14.  [Decrypt] does not see line breaks in its input: a sealed text
    with carriage returns or line feeds inserted anywhere gets the result of
    the text without them. *)
Theorem Decrypt_ignores_line_breaks e before breaks after :
  base64.strip_newlines breaks = "" ->
  Decrypt open e (before +:+ breaks +:+ after) = Decrypt open e (before +:+ after).
Proof.
  intros Hbreaks. unfold Decrypt, base64.DecodeString.
  now rewrite !strip_newlines_app, Hbreaks.
Qed.

End EncryptorProperties.


Lemma Decrypt_ignores_line_breaks_witness :
  Decrypt toy_open {| key := test_key |}
    ("AAAAAAAAAAAAAAAAYQAA" +:+ String "013" (String "010" "") +:+ "AAAAAAAAAAAAAG15dmU=")
  = Returns ("a", None).
Proof.
  rewrite (Decrypt_ignores_line_breaks toy_open {| key := test_key |}
             "AAAAAAAAAAAAAAAAYQAA" (String "013" (String "010" ""))
             "AAAAAAAAAAAAAG15dmU=") by reflexivity.
  vm_compute. reflexivity.
Defined.

End utils.

(** ** Package organization: the client-secret service
    (internal/organization/service.go) *)
Module organization.

(** [OrganizationService]: the encryptor made at construction. *)
Record OrganizationService := { encryptor : utils.Encryptor }.

(** [NewOrganizationService()]; [encryptionKey] is what
    [viper.GetString("ENCRYPTION_KEY")] returns.  The constructor panics
    with the error of [NewEncryptor]. *)
Definition NewOrganizationService (encryptionKey : string) : outcome OrganizationService :=
  match utils.NewEncryptor (bytes_of encryptionKey) with
  | (Some e, None) => Returns {| encryptor := e |}
  | (_, _) => Panics "invalid key size: must be 16, 24, or 32 bytes"
  end.

(** [EncryptClientSecret(ctx, clientSecret)] and
    [DecryptClientSecret(ctx, clientSecret)]: both return their argument. *)
Definition EncryptClientSecret (s : OrganizationService) (clientSecret : string)
  : outcome (string * option error) :=
  Returns (clientSecret, None).

Definition DecryptClientSecret (s : OrganizationService) (clientSecret : string)
  : outcome (string * option error) :=
  Returns (clientSecret, None).

Definition valid_key_length (encryptionKey : string) : Prop :=
  String.length encryptionKey = 16%nat \/ String.length encryptionKey = 24%nat
  \/ String.length encryptionKey = 32%nat.

Lemma NewOrganizationService_valid encryptionKey :
  valid_key_length encryptionKey ->
  NewOrganizationService encryptionKey
  = Returns {| encryptor := {| utils.key := bytes_of encryptionKey |} |}.
Proof.
  intros Hlen. unfold NewOrganizationService, utils.NewEncryptor, utils.valid_key_size.
  rewrite utils.bytes_of_length.
  destruct Hlen as [-> | [-> | ->]]; reflexivity.
Qed.

Lemma NewOrganizationService_invalid encryptionKey :
  ~ valid_key_length encryptionKey ->
  NewOrganizationService encryptionKey
  = Panics "invalid key size: must be 16, 24, or 32 bytes".
Proof.
  intros Hlen. unfold NewOrganizationService, utils.NewEncryptor, utils.valid_key_size.
  rewrite utils.bytes_of_length. unfold valid_key_length in Hlen.
  rewrite !bool_decide_eq_false_2 by tauto. reflexivity.
Qed.

Lemma valid_key_length_dec encryptionKey :
  valid_key_length encryptionKey \/ ~ valid_key_length encryptionKey.
Proof. unfold valid_key_length. lia. Qed.

(** X17.  The service is made exactly for encryption keys of 16, 24 or 32
    bytes, and the constructor panics for every other key; yet the key plays
    no part afterwards: whatever service was made, the "encrypted" client
    secret is the client secret itself, so two services with different keys
    store the same text for it, and each reads back what the other
    stored. *)
Theorem client_secret_stored_as_is encryptionKey clientSecret :
  ((exists s, NewOrganizationService encryptionKey = Returns s)
   <-> valid_key_length encryptionKey)
  /\ ((exists msg, NewOrganizationService encryptionKey = Panics msg)
      <-> ~ valid_key_length encryptionKey)
  /\ forall s s',
       EncryptClientSecret s clientSecret = Returns (clientSecret, None)
       /\ EncryptClientSecret s' clientSecret = EncryptClientSecret s clientSecret
       /\ DecryptClientSecret s' clientSecret = Returns (clientSecret, None).
Proof.
  split; [|split].
  - split.
    + intros [s Hs]. destruct (valid_key_length_dec encryptionKey) as [|Hbad]; [assumption|].
      rewrite NewOrganizationService_invalid in Hs by assumption. discriminate.
    + intros Hlen. rewrite NewOrganizationService_valid by assumption. eauto.
  - split.
    + intros [msg Hmsg] Hlen.
      rewrite NewOrganizationService_valid in Hmsg by assumption. discriminate.
    + intros Hbad. rewrite NewOrganizationService_invalid by assumption. eauto.
  - intros s s'. repeat split.
Qed.

End organization.
